(** * Thumbnail Separator: response normalisation, crop geometry and
      application state, embedded from the TypeScript sources.

    Conventions of the embedding.

    - A TypeScript [number] that carries a measurement (confidence, box
      coordinate, score, pixel size) is held as the rational [Q] it
      denotes: every finite IEEE 754 double is one.  Arithmetic on such
      numbers is the exact operation followed by rounding to the nearest
      double, ties to even ([Double.round]); equalities between computed
      numbers are stated with [==].  Infinities, NaN and the sign of zero
      are not represented.
    - [zIndex] is declared [Type.INTEGER] in the response schema and is a [Z].
    - A property the response schema does not list under [required] is an
      [option]; JSON [null] and an absent property both read as [None].
    - Interfaces of [src/types.ts] are records; string enums are inductive
      types. *)

From Stdlib Require Import List String Ascii Bool ZArith QArith Lia Lqa.
From Stdlib Require Import Qround Qabs Qpower Qreduction.
From Stdlib Require Import Sorted Permutation.
From Stdlib Require Import Decimal DecimalString DecimalNat DecimalFacts.
Import ListNotations.

Set Implicit Arguments.

(* ------------------------------------------------------------------ *)
(** ** src/types.ts *)

Inductive ElementType : Type :=
| PERSON | OBJECT | TEXT | LOGO | BACKGROUND | EFFECT.

Definition ElementType_eqb (a b : ElementType) : bool :=
  match a, b with
  | PERSON, PERSON | OBJECT, OBJECT | TEXT, TEXT
  | LOGO, LOGO | BACKGROUND, BACKGROUND | EFFECT, EFFECT => true
  | _, _ => false
  end.

Record BoundingBox : Type := mkBox {
  ymin : Q;
  xmin : Q;
  ymax : Q;
  xmax : Q
}.

Record LayerData : Type := mkLayer {
  id : string;
  label : string;
  type : ElementType;
  subtype : option string;
  confidence : Q;
  box : BoundingBox;
  zIndex : Z;
  dominantColor : string;
  visible : bool;
  maskUrl : option string
}.

Record Point : Type := mkPoint { x : Q; y : Q }.

Record CompositionAnalysis : Type := mkAnalysis {
  ruleOfThirdsScore : Q;
  visualBalanceScore : Q;
  dominantColors : list string;
  brightnessMap : string;
  contrastLevel : string;
  suggestions : list string;
  eyeContact : bool;
  visualWeightCenter : Point
}.

Record ProcessingResult : Type := mkResult {
  layers : list LayerData;
  analysis : CompositionAnalysis
}.

Inductive Status : Type := IDLE | ANALYZING | SUCCESS | ERROR.

Record AppState : Type := mkState {
  status : Status;
  imageSrc : option string;
  result : option ProcessingResult;
  error : option string
}.

(* ------------------------------------------------------------------ *)
(** ** JavaScript operators and built-ins used by the sources *)

Module JS.

(** How a call completes: with a value (for an [async] function, the value
    its promise resolves to) or with a thrown [Error] (a rejection). *)
Inductive Completion (A : Type) : Type :=
| Return (a : A)
| Throw (message : string).
Arguments Throw {A} message.

(** [a || b] with [a] a possibly missing number: [undefined], [null] and
    [0] are falsy. *)
Definition number_or (a : option Q) (b : Q) : Q :=
  match a with
  | Some q => if Qeq_bool q 0 then b else q
  | None => b
  end.

(** [a || b] with [a] a possibly missing string: [undefined], [null] and
    the empty string are falsy. *)
Definition string_or (a : option string) (b : string) : string :=
  match a with
  | Some EmptyString => b
  | Some s => s
  | None => b
  end.

(** Template-literal rendering of an array index and of [Date.now()]. *)
Definition String_of_index (n : nat) : string :=
  NilZero.string_of_uint (Nat.to_uint n).

Definition String_of_integer (z : Z) : string :=
  NilZero.string_of_int (Z.to_int z).

Section Arrays.
Variables A B : Type.

(** [arr.map((e, index) => f e index)], indices counted from [i]. *)
Fixpoint mapi_from (f : A -> nat -> B) (i : nat) (arr : list A) : list B :=
  match arr with
  | [] => []
  | e :: rest => f e i :: mapi_from f (S i) rest
  end.

Definition Array_map (f : A -> nat -> B) (arr : list A) : list B :=
  mapi_from f 0 arr.

(** [arr.some(p)]. *)
Definition Array_some (p : A -> bool) (arr : list A) : bool :=
  existsb p arr.

(** [arr.unshift(e)]: the array after the call. *)
Definition Array_unshift (e : A) (arr : list A) : list A := e :: arr.

(** [arr.sort(comparefn)].  The sort is stable (ECMAScript 2019): an
    element moves behind a later one only when [comparefn] is strictly
    positive on the pair. *)
Fixpoint sort_insert (comparefn : A -> A -> Z) (e : A) (sorted : list A)
  : list A :=
  match sorted with
  | [] => [e]
  | h :: rest =>
      if (comparefn e h >? 0)%Z
      then h :: sort_insert comparefn e rest
      else e :: sorted
  end.

Fixpoint Array_sort (comparefn : A -> A -> Z) (arr : list A) : list A :=
  match arr with
  | [] => []
  | e :: rest => sort_insert comparefn e (Array_sort comparefn rest)
  end.
End Arrays.

End JS.

(* ------------------------------------------------------------------ *)
(** ** Arithmetic of the [number] type

    [*], [-], [+] and [/] on numbers compute the exact result and round it
    to the nearest binary64 value, ties to the even mantissa, with gradual
    underflow below 2^-1022.  A result of magnitude 2^1024 or more is
    where the code holds an infinity. *)

Module Double.

(** The exponent of the smallest positive double, 2^-1074. *)
Definition emin : Z := (-1074)%Z.

(** [ilog2 q] is the integer [k] with 2^k <= q < 2^(k+1), for [q > 0]. *)
Definition ilog2 (q : Q) : Z :=
  let k := (Z.log2 (Qnum q) - Z.log2 (Zpos (Qden q)))%Z in
  if Qle_bool (2 ^ k) q then k else (k - 1)%Z.

(** The exponent of the unit in the last place of the doubles around [q]:
    53 significant bits, and never below [emin]. *)
Definition exponent (q : Q) : Z := Z.max (ilog2 (Qabs q) - 52) emin.

(** The integer nearest to [q]; of two at the same distance, the even
    one. *)
Definition nearest_even (q : Q) : Z :=
  let k := Qfloor q in
  match Qcompare (q - inject_Z k) (1 # 2) with
  | Lt => k
  | Gt => (k + 1)%Z
  | Eq => if Z.even k then k else (k + 1)%Z
  end.

(** The double nearest to [q]. *)
Definition round (q : Q) : Q :=
  if Qeq_bool q 0 then 0
  else let e := exponent q in
       Qred (inject_Z (nearest_even (q / 2 ^ e)) * 2 ^ e).

Definition mul (a b : Q) : Q := round (a * b).
Definition sub (a b : Q) : Q := round (a - b).
Definition add (a b : Q) : Q := round (a + b).

(** [a / b] for a divisor other than 0. *)
Definition div (a b : Q) : Q := round (a / b).

(** [q] is the value of a double. *)
Definition representable (q : Q) : Prop := round q == q.

(** [m] is the integer nearest to [q], the even one of two at equal
    distance. *)
Definition nearest (q : Q) (m : Z) : Prop :=
  inject_Z m - (1 # 2) <= q /\ q <= inject_Z m + (1 # 2)
  /\ (q == inject_Z m - (1 # 2) \/ q == inject_Z m + (1 # 2) ->
      Z.even m = true).

End Double.

(* ------------------------------------------------------------------ *)
(** ** src/services/geminiService.ts *)

Module GeminiService.

(** One element of [rawData.layers], shaped by [layerSchema]. *)
Record RawLayer : Type := mkRawLayer {
  raw_label : string;
  raw_type : ElementType;
  raw_subtype : option string;
  raw_confidence : option Q;
  raw_ymin : Q;
  raw_xmin : Q;
  raw_ymax : Q;
  raw_xmax : Q;
  raw_zIndex : Z;
  raw_dominantColor : string
}.

(** [rawData.analysis], shaped by [analysisSchema]. *)
Record RawAnalysis : Type := mkRawAnalysis {
  raw_ruleOfThirdsScore : Q;
  raw_visualBalanceScore : Q;
  raw_dominantColors : list string;
  raw_brightnessMap : option string;
  raw_contrastLevel : option string;
  raw_suggestions : list string;
  raw_eyeContact : bool;
  raw_weightCenterX : option Q;
  raw_weightCenterY : option Q
}.

(** [rawData], shaped by [responseSchema]. *)
Record RawData : Type := mkRawData {
  raw_layers : list RawLayer;
  raw_analysis : RawAnalysis
}.

(** What the awaited [generateContent] call and [JSON.parse] deliver: a
    rejection; a response without text; a text that [JSON.parse] refuses;
    a JSON value on which lines 105-155 throw a [TypeError] (no [layers]
    array, no [analysis] object, a [null] among the layers); or a value of
    the shape requested with [responseSchema].  A value that passes lines
    105-155 without that shape (a layer object without [label], say) is
    not represented. *)
Inductive Remote : Type :=
| Rejected (message : string)
| EmptyText
| Unparseable (message : string)
| Misshapen (message : string)
| Parsed (rawData : RawData).

Section Normalisation.
(** [now i] is the value [Date.now()] returns inside the [i]-th callback
    of [rawData.layers.map]. *)
Variable now : nat -> Z.

Definition layer_id (index : nat) : string :=
  ("layer-" ++ JS.String_of_index index ++ "-"
     ++ JS.String_of_integer (now index))%string.

(** The callback of [rawData.layers.map]. *)
Definition mapLayer (layer : RawLayer) (index : nat) : LayerData :=
  {| id := layer_id index;
     label := raw_label layer;
     type := raw_type layer;
     subtype := raw_subtype layer;
     confidence := JS.number_or (raw_confidence layer) (Double.round 0.9);
     box := {| ymin := Double.div (raw_ymin layer) 1000;
               xmin := Double.div (raw_xmin layer) 1000;
               ymax := Double.div (raw_ymax layer) 1000;
               xmax := Double.div (raw_xmax layer) 1000 |};
     zIndex := raw_zIndex layer;
     dominantColor := raw_dominantColor layer;
     visible := true;
     maskUrl := None |}.

Definition defaultBackground : LayerData :=
  {| id := "layer-bg-default";
     label := "Background Environment";
     type := BACKGROUND;
     subtype := None;
     confidence := 0.5;
     box := {| ymin := 0; xmin := 0; ymax := 1; xmax := 1 |};
     zIndex := 0;
     dominantColor := "#000000";
     visible := true;
     maskUrl := None |}.

Definition isBackground (l : LayerData) : bool :=
  ElementType_eqb (type l) BACKGROUND.

Definition hasBackground (ls : list LayerData) : bool :=
  JS.Array_some isBackground ls.

(** [layers] just before [layers.sort]: after the optional [unshift]. *)
Definition ensureBackground (ls : list LayerData) : list LayerData :=
  if hasBackground ls then ls else JS.Array_unshift defaultBackground ls.

Definition byZIndex (a b : LayerData) : Z := (zIndex a - zIndex b)%Z.

Definition mappedLayers (rawData : RawData) : list LayerData :=
  JS.Array_map mapLayer (raw_layers rawData).

Definition unsortedLayers (rawData : RawData) : list LayerData :=
  ensureBackground (mappedLayers rawData).

Definition normalizeAnalysis (a : RawAnalysis) : CompositionAnalysis :=
  {| ruleOfThirdsScore := raw_ruleOfThirdsScore a;
     visualBalanceScore := raw_visualBalanceScore a;
     dominantColors := raw_dominantColors a;
     brightnessMap := JS.string_or (raw_brightnessMap a) "Balanced";
     contrastLevel := JS.string_or (raw_contrastLevel a) "Medium";
     suggestions := raw_suggestions a;
     eyeContact := raw_eyeContact a;
     visualWeightCenter :=
       {| x := JS.number_or (raw_weightCenterX a) 50;
          y := JS.number_or (raw_weightCenterY a) 50 |} |}.

(** Lines 101-155: from the parsed response to the returned object. *)
Definition normalize (rawData : RawData) : ProcessingResult :=
  {| layers := JS.Array_sort byZIndex (unsortedLayers rawData);
     analysis := normalizeAnalysis (raw_analysis rawData) |}.

(** [analyzeThumbnail]: the credential check, the awaited call, the
    parse, the normalisation; every failure is rethrown to the caller. *)
Definition analyzeThumbnail (API_KEY : option string) (remote : Remote)
  : JS.Completion ProcessingResult :=
  match API_KEY with
  | None | Some EmptyString =>
      JS.Throw
        "API Key is missing. Please set the API_KEY environment variable."
  | Some _ =>
      match remote with
      | Rejected message => JS.Throw message
      | EmptyText => JS.Throw "No response from AI"
      | Unparseable message => JS.Throw message
      | Misshapen message => JS.Throw message
      | Parsed rawData => JS.Return (normalize rawData)
      end
  end.
End Normalisation.

End GeminiService.

(* ------------------------------------------------------------------ *)
(** ** src/utils/imageProcessing.ts *)

Module ImageProcessing.

(** The part of an [HTMLImageElement] the crop reads; [naturalWidth] and
    [naturalHeight] are of the DOM type [unsigned long]. *)
Record HTMLImageElement : Type := mkImage {
  src : string;
  naturalWidth : N;
  naturalHeight : N
}.

(** Arguments of the nine-argument [ctx.drawImage] call after the image. *)
Record DrawImage : Type := mkDraw {
  sx : Q; sy : Q; sWidth : Q; sHeight : Q;
  dx : Q; dy : Q; dWidth : Q; dHeight : Q
}.

(** The canvas when [toDataURL] is called: the numbers assigned to its
    [width] and [height], and the draw call issued on its context. *)
Record Canvas : Type := mkCanvas {
  width : Q;
  height : Q;
  drawn : DrawImage
}.

Inductive CanvasRenderingContext2D : Type := Context2D.

(** [document]: what [createElement("canvas").getContext("2d")] gives
    ([None] for [null]), and the encoder behind [drawImage] followed by
    [canvas.toDataURL("image/png")], which may itself throw. *)
Record Document : Type := mkDocument {
  getContext2d : option CanvasRenderingContext2D;
  toDataURL : HTMLImageElement -> Canvas -> JS.Completion string
}.

Definition pixels (n : N) : Q := inject_Z (Z.of_N n).

Definition padding : Q := 0.

(** Lines 16-41 of [cropLayer]: size the canvas and issue the draw. *)
Definition cropCanvas (imageElement : HTMLImageElement) (box : BoundingBox)
  : Canvas :=
  let width := pixels (naturalWidth imageElement) in
  let height := pixels (naturalHeight imageElement) in
  let sx := Double.mul (xmin box) width in
  let sy := Double.mul (ymin box) height in
  let sw := Double.mul (Double.sub (xmax box) (xmin box)) width in
  let sh := Double.mul (Double.sub (ymax box) (ymin box)) height in
  {| width := sw;
     height := sh;
     drawn := {| sx := Double.sub sx padding;
                 sy := Double.sub sy padding;
                 sWidth := Double.add sw (Double.mul padding 2);
                 sHeight := Double.add sh (Double.mul padding 2);
                 dx := 0;
                 dy := 0;
                 dWidth := sw;
                 dHeight := sh |} |}.

Definition cropLayer (document : Document)
           (imageElement : HTMLImageElement) (box : BoundingBox)
  : JS.Completion string :=
  match getContext2d document with
  | None => JS.Return EmptyString
  | Some ctx => toDataURL document imageElement (cropCanvas imageElement box)
  end.

End ImageProcessing.

(* ------------------------------------------------------------------ *)
(** ** [JSON.stringify] and [JSON.parse], on the JSON data model

    The exported text is represented by the document tree it denotes.  The
    layout produced by the indent argument, the percent-encoding of the
    [data:] URL and the decimal rendering of numbers are below this level. *)

Module JSON.

Local Unset Elimination Schemes.

(** A JavaScript value held in memory. *)
Inductive Value : Type :=
| Undefined
| Null
| Boolean (b : bool)
| Number (q : Q)
| Str (s : string)
| Array (elements : list Value)
| Object (properties : list (string * Value)).

(** A JSON document. *)
Inductive Doc : Type :=
| DNull
| DBoolean (b : bool)
| DNumber (q : Q)
| DStr (s : string)
| DArray (elements : list Doc)
| DObject (members : list (string * Doc)).

Local Set Elimination Schemes.

(** [JSON.stringify(v, null, 2)]: [None] when the call returns
    [undefined].  A property whose value is [undefined] is left out; an
    [undefined] array element is written as [null]. *)
Fixpoint stringify (v : Value) : option Doc :=
  match v with
  | Undefined => None
  | Null => Some DNull
  | Boolean b => Some (DBoolean b)
  | Number q => Some (DNumber q)
  | Str s => Some (DStr s)
  | Array elements =>
      Some (DArray
              (map (fun e => match stringify e with
                             | Some d => d
                             | None => DNull
                             end) elements))
  | Object properties =>
      Some (DObject
              (flat_map (fun '(k, e) => match stringify e with
                                        | Some d => [(k, d)]
                                        | None => []
                                        end) properties))
  end.

(** What [stringify] writes where a value is required. *)
Definition written (v : Value) : Doc :=
  match stringify v with
  | Some d => d
  | None => DNull
  end.

(** [JSON.parse] of the text of a document. *)
Fixpoint parse (d : Doc) : Value :=
  match d with
  | DNull => Null
  | DBoolean b => Boolean b
  | DNumber q => Number q
  | DStr s => Str s
  | DArray elements => Array (map parse elements)
  | DObject members => Object (map (fun '(k, e) => (k, parse e)) members)
  end.

(** The value without its properties that hold [undefined], at every
    depth. *)
Fixpoint defined (v : Value) : Value :=
  match v with
  | Array elements => Array (map defined elements)
  | Object properties =>
      Object (flat_map (fun '(k, e) => match e with
                                       | Undefined => []
                                       | _ => [(k, defined e)]
                                       end) properties)
  | _ => v
  end.

(** Property read [o.k]: [undefined] when [o] has no such property. *)
Fixpoint lookup (k : string) (properties : list (string * Value)) : Value :=
  match properties with
  | [] => Undefined
  | (k', e) :: rest => if String.eqb k k' then e else lookup k rest
  end.

Definition get (o : Value) (k : string) : Value :=
  match o with
  | Object properties => lookup k properties
  | _ => Undefined
  end.

End JSON.

(** The run-time string of each [ElementType] member. *)
Definition ElementType_value (t : ElementType) : string :=
  match t with
  | PERSON => "PERSON"
  | OBJECT => "OBJECT"
  | TEXT => "TEXT"
  | LOGO => "LOGO"
  | BACKGROUND => "BACKGROUND"
  | EFFECT => "EFFECT"
  end.

Definition ElementType_of_value (s : string) : option ElementType :=
  find (fun t => String.eqb s (ElementType_value t))
       [PERSON; OBJECT; TEXT; LOGO; BACKGROUND; EFFECT].

(** The objects behind the interfaces of [src/types.ts], and the reading of
    an arbitrary value as such an object, one property at a time. *)
Module Repr.
Import JSON.

Definition optional (o : option string) : Value :=
  match o with
  | Some s => Str s
  | None => Undefined
  end.

Definition ofBox (b : BoundingBox) : Value :=
  Object [("ymin", Number (ymin b)); ("xmin", Number (xmin b));
          ("ymax", Number (ymax b)); ("xmax", Number (xmax b))]%string.

(** The object of a layer.  The literal of geminiService.ts lines 105-120
    always has a [subtype] property, which holds [undefined] when the
    response has none; the literal of lines 125-134, the synthesized
    background, has no such property.  The spread of [toggleLayer] copies
    the properties as they are.  No code assigns [maskUrl]. *)
Definition subtypeProperty (l : LayerData) : list (string * Value) :=
  match subtype l with
  | Some s => [("subtype", Str s)]
  | None => if String.eqb (id l) "layer-bg-default" then []
            else [("subtype", Undefined)]
  end%string.

Definition maskUrlProperty (l : LayerData) : list (string * Value) :=
  match maskUrl l with
  | Some m => [("maskUrl", Str m)]
  | None => []
  end%string.

Definition ofLayer (l : LayerData) : Value :=
  Object ([("id"%string, Str (id l));
           ("label"%string, Str (label l));
           ("type"%string, Str (ElementType_value (type l)))]
          ++ subtypeProperty l
          ++ [("confidence"%string, Number (confidence l));
              ("box"%string, ofBox (box l));
              ("zIndex"%string, Number (inject_Z (zIndex l)));
              ("dominantColor"%string, Str (dominantColor l));
              ("visible"%string, Boolean (visible l))]
          ++ maskUrlProperty l)%list.

Definition ofStrings (l : list string) : Value := Array (map Str l).

Definition ofAnalysis (a : CompositionAnalysis) : Value :=
  Object [("ruleOfThirdsScore", Number (ruleOfThirdsScore a));
          ("visualBalanceScore", Number (visualBalanceScore a));
          ("dominantColors", ofStrings (dominantColors a));
          ("brightnessMap", Str (brightnessMap a));
          ("contrastLevel", Str (contrastLevel a));
          ("suggestions", ofStrings (suggestions a));
          ("eyeContact", Boolean (eyeContact a));
          ("visualWeightCenter",
            Object [("x", Number (x (visualWeightCenter a)));
                    ("y", Number (y (visualWeightCenter a)))])]%string.

Definition ofResult (r : ProcessingResult) : Value :=
  Object [("layers", Array (map ofLayer (layers r)));
          ("analysis", ofAnalysis (analysis r))]%string.

Definition bind {A B : Type} (o : option A) (f : A -> option B) : option B :=
  match o with
  | Some a => f a
  | None => None
  end.

Notation "'let?' a ':=' o 'in' k" := (bind o (fun a => k))
  (at level 10, a name, o at level 100, k at level 200).

Definition asString (v : Value) : option string :=
  match v with Str s => Some s | _ => None end.

Definition asOptional (v : Value) : option (option string) :=
  match v with
  | Str s => Some (Some s)
  | Undefined => Some None
  | _ => None
  end.

Definition asNumber (v : Value) : option Q :=
  match v with Number q => Some q | _ => None end.

Definition asInteger (v : Value) : option Z :=
  match v with
  | Number (Qmake n 1) => Some n
  | _ => None
  end.

Definition asBoolean (v : Value) : option bool :=
  match v with Boolean b => Some b | _ => None end.

Fixpoint all {A : Type} (l : list (option A)) : option (list A) :=
  match l with
  | [] => Some []
  | o :: rest =>
      let? a := o in
      let? rest' := all rest in
      Some (a :: rest')
  end.

Definition asArray {A : Type} (f : Value -> option A) (v : Value)
  : option (list A) :=
  match v with
  | Array elements => all (map f elements)
  | _ => None
  end.

Definition toBox (v : Value) : option BoundingBox :=
  let? a := asNumber (get v "ymin") in
  let? b := asNumber (get v "xmin") in
  let? c := asNumber (get v "ymax") in
  let? d := asNumber (get v "xmax") in
  Some {| ymin := a; xmin := b; ymax := c; xmax := d |}.

Definition toLayer (v : Value) : option LayerData :=
  let? i := asString (get v "id") in
  let? lab := asString (get v "label") in
  let? ty := bind (asString (get v "type")) ElementType_of_value in
  let? sub := asOptional (get v "subtype") in
  let? conf := asNumber (get v "confidence") in
  let? b := toBox (get v "box") in
  let? z := asInteger (get v "zIndex") in
  let? col := asString (get v "dominantColor") in
  let? vis := asBoolean (get v "visible") in
  let? mask := asOptional (get v "maskUrl") in
  Some {| id := i; label := lab; type := ty; subtype := sub;
          confidence := conf; box := b; zIndex := z;
          dominantColor := col; visible := vis; maskUrl := mask |}.

Definition toPoint (v : Value) : option Point :=
  let? a := asNumber (get v "x") in
  let? b := asNumber (get v "y") in
  Some {| x := a; y := b |}.

Definition toAnalysis (v : Value) : option CompositionAnalysis :=
  let? r := asNumber (get v "ruleOfThirdsScore") in
  let? b := asNumber (get v "visualBalanceScore") in
  let? cols := asArray asString (get v "dominantColors") in
  let? br := asString (get v "brightnessMap") in
  let? co := asString (get v "contrastLevel") in
  let? sug := asArray asString (get v "suggestions") in
  let? eye := asBoolean (get v "eyeContact") in
  let? c := toPoint (get v "visualWeightCenter") in
  Some {| ruleOfThirdsScore := r; visualBalanceScore := b;
          dominantColors := cols; brightnessMap := br;
          contrastLevel := co; suggestions := sug; eyeContact := eye;
          visualWeightCenter := c |}.

Definition toResult (v : Value) : option ProcessingResult :=
  let? ls := asArray toLayer (get v "layers") in
  let? a := toAnalysis (get v "analysis") in
  Some {| layers := ls; analysis := a |}.

End Repr.

(* ------------------------------------------------------------------ *)
(** ** src/App.tsx *)

Module App.
Import ImageProcessing.

Inductive Tab : Type := layersTab | analysisTab.

(** The four [useState] cells of the [App] component. *)
Record Hooks : Type := mkHooks {
  state : AppState;
  activeTab : Tab;
  selectedLayerId : option string;
  originalImage : option HTMLImageElement
}.

Definition setState (f : AppState -> AppState) (app : Hooks) : Hooks :=
  {| state := f (state app);
     activeTab := activeTab app;
     selectedLayerId := selectedLayerId app;
     originalImage := originalImage app |}.

Definition setActiveTab (t : Tab) (app : Hooks) : Hooks :=
  {| state := state app;
     activeTab := t;
     selectedLayerId := selectedLayerId app;
     originalImage := originalImage app |}.

Definition setSelectedLayerId (i : option string) (app : Hooks) : Hooks :=
  {| state := state app;
     activeTab := activeTab app;
     selectedLayerId := i;
     originalImage := originalImage app |}.

Definition setOriginalImage (img : option HTMLImageElement) (app : Hooks)
  : Hooks :=
  {| state := state app;
     activeTab := activeTab app;
     selectedLayerId := selectedLayerId app;
     originalImage := img |}.

(** The component when it is first rendered. *)
Definition initial : Hooks :=
  {| state := {| status := IDLE; imageSrc := None;
                 result := None; error := None |};
     activeTab := layersTab;
     selectedLayerId := None;
     originalImage := None |}.

(** [handleImageSelected] up to its [await]. *)
Definition handleImageSelected_submit (base64 : string) : Hooks -> Hooks :=
  setState (fun prev =>
    {| status := ANALYZING; imageSrc := Some base64;
       result := result prev; error := None |}).

(** [handleImageSelected] after its [await]: the two arms of the [try]. *)
Definition handleImageSelected_settle
           (settled : JS.Completion ProcessingResult) : Hooks -> Hooks :=
  match settled with
  | JS.Return result0 =>
      setState (fun prev =>
        {| status := SUCCESS; imageSrc := imageSrc prev;
           result := Some result0; error := error prev |})
  | JS.Throw message =>
      setState (fun prev =>
        {| status := ERROR; imageSrc := imageSrc prev;
           result := result prev;
           error := Some (JS.string_or (Some message)
                                       "Failed to analyze image") |})
  end.

(** The [map] callback of [handleToggleVisibility]. *)
Definition toggleLayer (id0 : string) (l : LayerData) : LayerData :=
  if String.eqb (id l) id0
  then {| id := id l; label := label l; type := type l;
          subtype := subtype l; confidence := confidence l;
          box := box l; zIndex := zIndex l;
          dominantColor := dominantColor l;
          visible := negb (visible l);
          maskUrl := maskUrl l |}
  else l.

Definition handleToggleVisibility (id0 : string) (app : Hooks) : Hooks :=
  match result (state app) with
  | None => app
  | Some r =>
      let newLayers := map (toggleLayer id0) (layers r) in
      setState (fun prev =>
        {| status := status prev; imageSrc := imageSrc prev;
           result := match result prev with
                     | Some r' => Some {| layers := newLayers;
                                          analysis := analysis r' |}
                     | None => None
                     end;
           error := error prev |}) app
  end.

(** The file a click on the anchor built by [handleExportJSON] saves. *)
Record Download : Type := mkDownload {
  download : string;
  document : JSON.Doc
}.

(** [handleExportJSON]: no state change; [None] when nothing is saved. *)
Definition handleExportJSON (app : Hooks) : option Download :=
  match result (state app) with
  | None => None
  | Some r =>
      match JSON.stringify (Repr.ofResult r) with
      | Some d => Some {| download := "thumbnail_data.json"; document := d |}
      | None => None
      end
  end.

(** The [onClick] of the "New Project" button. *)
Definition newProject : Hooks -> Hooks :=
  setState (fun _ =>
    {| status := IDLE; imageSrc := None; result := None; error := None |}).

(** The [onClick] of the "Try Again" button. *)
Definition tryAgain : Hooks -> Hooks :=
  setState (fun prev =>
    {| status := IDLE; imageSrc := imageSrc prev;
       result := result prev; error := None |}).

(** What is under way outside the component: the [FileReader]s the
    dropzone has started whose [onload] has not fired, the sources of the
    [Image] objects whose [onload] has not fired, and the number of
    [analyzeThumbnail] calls that have not settled. *)
Record Pending : Type := mkPending {
  reading : nat;
  decoding : list string;
  awaited : nat
}.

Definition nothingPending : Pending :=
  {| reading := 0; decoding := []; awaited := 0 |}.

(** User and environment events, and the handler each one runs.
    [FileChosen] is a drop on the dropzone or a choice in its file dialog
    ([processFile]); [ImageSelected] is the [onload] of a [FileReader],
    which calls [handleImageSelected]; [ImageLoaded] is the [onload] of the
    [Image] that [handleImageSelected] creates; [AnalysisSettled] is the
    settlement of an awaited [analyzeThumbnail]. *)
Inductive Event : Type :=
| FileChosen (fileType : string)
| ImageSelected (base64 : string)
| ImageLoaded (img : HTMLImageElement)
| AnalysisSettled (now : nat -> Z) (API_KEY : option string)
                  (remote : GeminiService.Remote)
| ToggleVisibility (id0 : string)
| SelectLayer (i : option string)
| SwitchTab (t : Tab)
| NewProject
| TryAgain.

Definition Status_eqb (a b : Status) : bool :=
  match a, b with
  | IDLE, IDLE | ANALYZING, ANALYZING | SUCCESS, SUCCESS | ERROR, ERROR => true
  | _, _ => false
  end.

(** The condition of line 158 under which the editor is rendered:
    [state.status === 'SUCCESS' && state.result && state.imageSrc]. *)
Definition editorRendered (app : Hooks) : bool :=
  Status_eqb (status (state app)) SUCCESS
  && match result (state app) with Some _ => true | None => false end
  && match imageSrc (state app) with
     | Some (String _ _) => true
     | _ => false
     end.

(** Which events can be delivered.  The dropzone is rendered only in
    [IDLE], "Try Again" only in [ERROR], "New Project" only in [SUCCESS],
    the layer controls and the tabs only with the editor; the callbacks of
    readers, images and awaited calls fire whatever the state is then. *)
Definition offered (env : Pending) (app : Hooks) (e : Event) : bool :=
  match e with
  | FileChosen _ => Status_eqb (status (state app)) IDLE
  | ImageSelected _ => (0 <? reading env)%nat
  | ImageLoaded img => existsb (String.eqb (src img)) (decoding env)
  | AnalysisSettled _ _ _ => (0 <? awaited env)%nat
  | NewProject => Status_eqb (status (state app)) SUCCESS
  | TryAgain => Status_eqb (status (state app)) ERROR
  | ToggleVisibility _ | SelectLayer _ | SwitchTab _ => editorRendered app
  end.

Definition handle (e : Event) : Hooks -> Hooks :=
  match e with
  | FileChosen _ => fun app => app
  | ImageSelected base64 => handleImageSelected_submit base64
  | ImageLoaded img => setOriginalImage (Some img)
  | AnalysisSettled now API_KEY remote =>
      handleImageSelected_settle
        (GeminiService.analyzeThumbnail now API_KEY remote)
  | ToggleVisibility id0 => handleToggleVisibility id0
  | SelectLayer i => setSelectedLayerId i
  | SwitchTab t => setActiveTab t
  | NewProject => newProject
  | TryAgain => tryAgain
  end.

(** [decoding] without its first entry equal to [s]. *)
Fixpoint withoutFirst (s : string) (l : list string) : list string :=
  match l with
  | [] => []
  | h :: rest => if String.eqb s h then rest else h :: withoutFirst s rest
  end.

(** What the event changes outside the component.  [processFile] starts
    a reader only for a file whose type starts with [image/]. *)
Definition track (e : Event) (env : Pending) : Pending :=
  match e with
  | FileChosen fileType =>
      if String.prefix "image/" fileType
      then {| reading := S (reading env); decoding := decoding env;
              awaited := awaited env |}
      else env
  | ImageSelected base64 =>
      {| reading := pred (reading env);
         decoding := base64 :: decoding env;
         awaited := S (awaited env) |}
  | ImageLoaded img =>
      {| reading := reading env;
         decoding := withoutFirst (src img) (decoding env);
         awaited := awaited env |}
  | AnalysisSettled _ _ _ =>
      {| reading := reading env; decoding := decoding env;
         awaited := pred (awaited env) |}
  | _ => env
  end.

(** The component and its surroundings after some sequence of events. *)
Inductive run : Pending -> Hooks -> Prop :=
| run_initial : run nothingPending initial
| run_step env app e :
    run env app -> offered env app e = true ->
    run (track e env) (handle e app).

(** States the component can be in after some sequence of events. *)
Definition reachable (app : Hooks) : Prop := exists env, run env app.

(** The events of a list delivered in order; [None] when one of them is
    not offered. *)
Fixpoint replay (events : list Event) (env : Pending) (app : Hooks)
  : option (Pending * Hooks) :=
  match events with
  | [] => Some (env, app)
  | e :: rest =>
      if offered env app e
      then replay rest (track e env) (handle e app)
      else None
  end.

End App.

(* ------------------------------------------------------------------ *)
(** ** Vocabulary of the statements *)

(** Some layer of the response has category [BACKGROUND]. *)
Definition responseHasBackground (rawData : GeminiService.RawData) : bool :=
  existsb (fun l => ElementType_eqb (GeminiService.raw_type l) BACKGROUND)
          (GeminiService.raw_layers rawData).

(** The layer carries the identifier of the synthesized background. *)
Definition isSynthesized (l : LayerData) : bool :=
  String.eqb (id l) "layer-bg-default".

Definition is_digit (c : ascii) : bool :=
  ((48 <=? nat_of_ascii c) && (nat_of_ascii c <=? 57))%nat.

Fixpoint all_digits (s : string) : bool :=
  match s with
  | EmptyString => true
  | String c rest => is_digit c && all_digits rest
  end.

(** [l] with its visibility flag negated and nothing else changed. *)
Definition flipped (l : LayerData) : LayerData :=
  {| id := id l; label := label l; type := type l; subtype := subtype l;
     confidence := confidence l; box := box l; zIndex := zIndex l;
     dominantColor := dominantColor l; visible := negb (visible l);
     maskUrl := maskUrl l |}.

(** Concrete responses and sessions used to exercise the statements. *)
Module Samples.
Import GeminiService.

Definition clock (i : nat) : Z := (1700000000000 + Z.of_nat i)%Z.

Definition API_KEY : option string := Some "test-key"%string.

Definition rawLayer (t : ElementType) (c : option Q) (z : Z) : RawLayer :=
  {| raw_label := "Hero"; raw_type := t; raw_subtype := None;
     raw_confidence := c;
     raw_ymin := 100; raw_xmin := 200; raw_ymax := 900; raw_xmax := 800;
     raw_zIndex := z; raw_dominantColor := "#ff0000" |}.

Definition rawAnalysis (b : option string) (cx : option Q) : RawAnalysis :=
  {| raw_ruleOfThirdsScore := 70; raw_visualBalanceScore := 60;
     raw_dominantColors := ["#ff0000"%string];
     raw_brightnessMap := b; raw_contrastLevel := None;
     raw_suggestions := ["Increase contrast"%string];
     raw_eyeContact := true;
     raw_weightCenterX := cx; raw_weightCenterY := None |}.

Definition response (ls : list RawLayer) : RawData :=
  {| raw_layers := ls; raw_analysis := rawAnalysis None None |}.

(** Stacking orders [3,1,2], the middle layer a background. *)
Definition threeLayers : RawData :=
  response [rawLayer PERSON (Some (Double.round 0.8)) 3;
            rawLayer BACKGROUND None 1;
            rawLayer TEXT (Some (Double.round 0.7)) 2].

(** No background, stacking orders from 1 up. *)
Definition noBackground : RawData :=
  response [rawLayer PERSON (Some (Double.round 0.8)) 3; rawLayer TEXT None 1].

(** No background, and a layer stacked below order 0. *)
Definition belowZero : RawData :=
  response [rawLayer PERSON (Some (Double.round 0.8)) (-1)].

(** Present but falsy values: confidence 0, an empty brightness
    description, weight centre at the left edge. *)
Definition falsyValues : RawData :=
  {| raw_layers := [rawLayer BACKGROUND (Some 0) 1];
     raw_analysis := rawAnalysis (Some EmptyString) (Some 0) |}.

Definition image : ImageProcessing.HTMLImageElement :=
  {| ImageProcessing.src := "data:image/png;base64,iVBORw0KGgo=";
     ImageProcessing.naturalWidth := 1280;
     ImageProcessing.naturalHeight := 720 |}.

Definition noContext : ImageProcessing.Document :=
  {| ImageProcessing.getContext2d := None;
     ImageProcessing.toDataURL := fun _ _ => JS.Throw "SecurityError" |}.

(** A session that submitted an image and saw the call rejected. *)
Definition failedSession : App.Hooks :=
  App.handle
    (App.AnalysisSettled clock API_KEY (Rejected "Failed to fetch"))
    (App.handle (App.ImageSelected "data:image/png;base64,iVBORw0KGgo=")
       App.initial).

(** A session showing the analysis of [threeLayers]. *)
Definition editingSession : App.Hooks :=
  App.handle
    (App.AnalysisSettled clock API_KEY (Parsed threeLayers))
    (App.handle (App.ImageSelected "data:image/png;base64,iVBORw0KGgo=")
       App.initial).

(** The same session after the user picked the first listed layer and
    then pressed "New Project". *)
Definition restartedSession : App.Hooks :=
  App.handle App.NewProject
    (App.handle (App.SelectLayer (Some "layer-1-1700000000001"%string))
       editingSession).

(** Two files chosen before the first one is read: both analyses are
    under way together; the first resolves, then the second is
    rejected. *)
Definition racedSession : App.Hooks :=
  App.handle
    (App.AnalysisSettled clock API_KEY (Rejected "Failed to fetch"))
    (App.handle
       (App.AnalysisSettled clock API_KEY (Parsed threeLayers))
       (App.handle (App.ImageSelected "data:image/png;base64,AAAA")
          (App.handle
             (App.ImageSelected "data:image/png;base64,iVBORw0KGgo=")
             App.initial))).
End Samples.

(* ------------------------------------------------------------------ *)
(** ** String methods used by the components

    A string is a sequence of code units below 256. *)

Module Strings.

(** The class [\s] on code units below 256: tab, line feed, vertical tab,
    form feed, carriage return, space and no-break space. *)
Definition is_whitespace (c : ascii) : bool :=
  let n := nat_of_ascii c in
  (((9 <=? n) && (n <=? 13)) || (n =? 32) || (n =? 160))%nat.

(** [s.replace(/\s+/g, '_')]: every maximal run of whitespace becomes one
    underscore.  [in_run] tells that the previous code unit was
    whitespace, so that the run has its underscore already. *)
Fixpoint replace_runs (in_run : bool) (s : string) : string :=
  match s with
  | EmptyString => EmptyString
  | String c rest =>
      if is_whitespace c
      then if in_run
           then replace_runs true rest
           else String "_" (replace_runs true rest)
      else String c (replace_runs false rest)
  end.

Definition replace_whitespace (s : string) : string := replace_runs false s.

Fixpoint has_whitespace (s : string) : bool :=
  match s with
  | EmptyString => false
  | String c rest => is_whitespace c || has_whitespace rest
  end.

(** [s.split(sep)] for a separator of one code unit. *)
Fixpoint split (sep : ascii) (s : string) : list string :=
  match s with
  | EmptyString => [EmptyString]
  | String c rest =>
      if Ascii.eqb c sep
      then EmptyString :: split sep rest
      else match split sep rest with
           | piece :: pieces => String c piece :: pieces
           | [] => [String c EmptyString]
           end
  end.

Fixpoint contains (sep : ascii) (s : string) : bool :=
  match s with
  | EmptyString => false
  | String c rest => Ascii.eqb c sep || contains sep rest
  end.

End Strings.

(** src/App.tsx, line 37: [base64.split(',')[1]], the payload handed to
    [analyzeThumbnail]; [None] stands for [undefined]. *)
Definition base64Data (base64 : string) : option string :=
  nth_error (Strings.split "," base64) 1.

(* ------------------------------------------------------------------ *)
(** ** src/utils/imageProcessing.ts: [downloadFile] *)

Module Downloads.

(** What [downloadFile] touches of the page: the children of
    [document.body] by node identity, the identity the next created
    element receives, and the saves started so far, each with its address
    and file name. *)
Record Page : Type := mkPage {
  body : list nat;
  fresh : nat;
  saves : list (string * string)
}.

(** An [<a>] element: its identity and the two attributes that are set. *)
Record Anchor : Type := mkAnchor {
  node : nat;
  href : string;
  download : string
}.

Definition createElement_a (p : Page) : Anchor * Page :=
  ({| node := fresh p; href := EmptyString; download := EmptyString |},
   {| body := body p; fresh := S (fresh p); saves := saves p |}).

Definition detach (n : nat) (children : list nat) : list nat :=
  filter (fun m => negb (Nat.eqb m n)) children.

(** [document.body.appendChild(a)]: a node already in the tree moves. *)
Definition appendChild (a : Anchor) (p : Page) : Page :=
  {| body := detach (node a) (body p) ++ [node a];
     fresh := fresh p;
     saves := saves p |}.

(** [a.click()] on an anchor that carries a [download] attribute. *)
Definition click (a : Anchor) (p : Page) : Page :=
  {| body := body p;
     fresh := fresh p;
     saves := saves p ++ [(href a, download a)] |}.

(** [document.body.removeChild(a)]: throws when [a] is no child. *)
Definition removeChild (a : Anchor) (p : Page) : JS.Completion Page :=
  if existsb (Nat.eqb (node a)) (body p)
  then JS.Return {| body := detach (node a) (body p);
                    fresh := fresh p;
                    saves := saves p |}
  else JS.Throw "NotFoundError".

Definition downloadFile (dataUrl filename : string) (p : Page)
  : JS.Completion Page :=
  let created := createElement_a p in
  let link := {| node := node (fst created);
                 href := dataUrl;
                 download := filename |} in
  removeChild link (click link (appendChild link (snd created))).

(** Every child of the body was created before the next element will be. *)
Definition well_formed (p : Page) : Prop :=
  Forall (fun n => (n < fresh p)%nat) (body p).

End Downloads.

(* ------------------------------------------------------------------ *)
(** ** src/components/LayerList.tsx *)

Module LayerList.
Import ImageProcessing.

(** The [thumbnails] state, a [Record<string, string>]: its own
    properties in creation order. *)
Definition Thumbnails : Type := list (string * string).

(** [thumbnails[k]]: [None] for [undefined]. *)
Fixpoint get (k : string) (o : Thumbnails) : option string :=
  match o with
  | [] => None
  | (k', v) :: rest => if String.eqb k k' then Some v else get k rest
  end.

(** [o[k] = v]. *)
Fixpoint set (k v : string) (o : Thumbnails) : Thumbnails :=
  match o with
  | [] => [(k, v)]
  | (k', v') :: rest =>
      if String.eqb k k' then (k', v) :: rest else (k', v') :: set k v rest
  end.

(** Truthiness of [thumbnails[k]]: [undefined] and [""] are falsy. *)
Definition truthy (v : option string) : bool :=
  match v with
  | Some (String _ _) => true
  | _ => false
  end.

(** [{ ...prev, ...newThumbs }]. *)
Definition spread (prev newThumbs : Thumbnails) : Thumbnails :=
  fold_left (fun o kv => set (fst kv) (snd kv) o) newThumbs prev.

(** The [forEach] of the effect: [newThumbs] after the layers from
    [layers] on have been visited; a throwing crop ends the effect. *)
Fixpoint collect (document : Document) (originalImage : HTMLImageElement)
         (thumbnails : Thumbnails) (layers : list LayerData)
         (newThumbs : Thumbnails) : JS.Completion Thumbnails :=
  match layers with
  | [] => JS.Return newThumbs
  | layer :: rest =>
      if truthy (get (id layer) thumbnails)
      then collect document originalImage thumbnails rest newThumbs
      else match cropLayer document originalImage (box layer) with
           | JS.Return dataUrl =>
               collect document originalImage thumbnails rest
                       (set (id layer) dataUrl newThumbs)
           | JS.Throw message => JS.Throw message
           end
  end.

(** The effect of lines 23-36: the [thumbnails] state once it has run.
    Only this effect writes the state, so the updater's [prev] is the
    [thumbnails] the effect read. *)
Definition thumbnailsEffect (document : Document)
           (originalImage : option HTMLImageElement)
           (layers : list LayerData) (thumbnails : Thumbnails)
  : JS.Completion Thumbnails :=
  match originalImage, layers with
  | None, _ => JS.Return thumbnails
  | Some _, [] => JS.Return thumbnails
  | Some img, _ :: _ =>
      match collect document img thumbnails layers [] with
      | JS.Return [] => JS.Return thumbnails
      | JS.Return newThumbs => JS.Return (spread thumbnails newThumbs)
      | JS.Throw message => JS.Throw message
      end
  end.

Definition fileName (layer : LayerData) : string :=
  (Strings.replace_whitespace (label layer) ++ ".png")%string.

(** [handleDownload]: the page after the click on a layer's download
    button. *)
Definition handleDownload (layer : LayerData) (thumbnails : Thumbnails)
           (p : Downloads.Page) : JS.Completion Downloads.Page :=
  match get (id layer) thumbnails with
  | Some (String c s) => Downloads.downloadFile (String c s) (fileName layer) p
  | _ => JS.Return p
  end.

(** The rows of the list, top to bottom: [[...layers].reverse()]. *)
Definition rows (layers : list LayerData) : list LayerData :=
  List.rev layers.

End LayerList.

(* ------------------------------------------------------------------ *)
(** ** src/components/LayerCanvas.tsx *)

Module LayerCanvas.
Import ImageProcessing.

(** The [imgDimensions] state. *)
Record Dimensions : Type := mkDimensions {
  dimWidth : N;
  dimHeight : N
}.

Definition handleImageLoad (currentTarget : HTMLImageElement) : Dimensions :=
  {| dimWidth := naturalWidth currentTarget;
     dimHeight := naturalHeight currentTarget |}.

(** [layers.find(l => l.id === selectedLayerId)]. *)
Definition selectedLayer (layers : list LayerData)
           (selectedLayerId : option string) : option LayerData :=
  match selectedLayerId with
  | None => None
  | Some i => find (fun l => String.eqb (id l) i) layers
  end.

(** The effect of lines 32-60: the canvas of the isolated view once it
    has run, [None] when it draws nothing.  [ctx] is what
    [canvasRef.current.getContext('2d')] gives, [image] is
    [imageRef.current]. *)
Definition drawSelected (ctx : option CanvasRenderingContext2D)
           (selected : option LayerData) (image : option HTMLImageElement)
           (imgDimensions : Dimensions) : option Canvas :=
  match selected, image with
  | Some l, Some _ =>
      if (0 <? dimWidth imgDimensions)%N
      then match ctx with
           | None => None
           | Some _ =>
               let width := pixels (dimWidth imgDimensions) in
               let height := pixels (dimHeight imgDimensions) in
               let sx := Double.mul (xmin (box l)) width in
               let sy := Double.mul (ymin (box l)) height in
               let sw :=
                 Double.mul (Double.sub (xmax (box l)) (xmin (box l))) width in
               let sh :=
                 Double.mul (Double.sub (ymax (box l)) (ymin (box l))) height in
               Some {| width := sw;
                       height := sh;
                       drawn := {| sx := sx; sy := sy;
                                   sWidth := sw; sHeight := sh;
                                   dx := 0; dy := 0;
                                   dWidth := sw; dHeight := sh |} |}
           end
      else None
  | _, _ => None
  end.

(** Same canvas size and same draw call, number for number. *)
Definition sameCanvas (a b : Canvas) : Prop :=
  width a == width b /\ height a == height b
  /\ sx (drawn a) == sx (drawn b) /\ sy (drawn a) == sy (drawn b)
  /\ sWidth (drawn a) == sWidth (drawn b)
  /\ sHeight (drawn a) == sHeight (drawn b)
  /\ dx (drawn a) == dx (drawn b) /\ dy (drawn a) == dy (drawn b)
  /\ dWidth (drawn a) == dWidth (drawn b)
  /\ dHeight (drawn a) == dHeight (drawn b).

(** The inline style of an overlay box; percentages as numbers.  [None]
    stands for [{ display: 'none' }]. *)
Record Style : Type := mkStyle {
  top : Q;
  left : Q;
  styleWidth : Q;
  styleHeight : Q;
  borderColor : string;
  boxShadow : string;
  styleZIndex : Z
}.

Definition getStyle (b : BoundingBox) (isSelected isVisible : bool)
  : option Style :=
  if negb isVisible then None
  else Some
         {| top := Double.mul (ymin b) 100;
            left := Double.mul (xmin b) 100;
            styleWidth := Double.mul (Double.sub (xmax b) (xmin b)) 100;
            styleHeight := Double.mul (Double.sub (ymax b) (ymin b)) 100;
            borderColor :=
              if isSelected then "#3b82f6" else "rgba(255, 255, 255, 0.4)";
            boxShadow :=
              if isSelected
              then "0 0 0 2px rgba(59, 130, 246, 0.5), inset 0 0 20px rgba(59, 130, 246, 0.2)"
              else "none";
            styleZIndex := if isSelected then 100 else 10 |}.

(** The overlay boxes of the full view: one per layer, in order,
    [getStyle(layer.box, false, layer.visible)]. *)
Definition overlays (layers : list LayerData) : list (option Style) :=
  map (fun layer => getStyle (box layer) false (visible layer)) layers.

Definition cropFileName (layer : LayerData) : string :=
  (Strings.replace_whitespace (label layer) ++ "_crop.png")%string.

(** [handleDownloadCrop]: the page after "Download PNG". *)
Definition handleDownloadCrop (document : Document)
           (selected : option LayerData) (image : option HTMLImageElement)
           (p : Downloads.Page) : JS.Completion Downloads.Page :=
  match selected, image with
  | Some l, Some img =>
      match cropLayer document img (box l) with
      | JS.Return dataUrl =>
          Downloads.downloadFile dataUrl (cropFileName l) p
      | JS.Throw message => JS.Throw message
      end
  | _, _ => JS.Return p
  end.

End LayerCanvas.

(* ------------------------------------------------------------------ *)
(** ** The analysis panel (src/unnamed/part_000) *)

Module AnalysisPanel.

Record RadarPoint : Type := mkRadarPoint {
  subject : string;
  A : Q;
  fullMark : Q
}.

Definition contrastScore (contrastLevel : string) : Q :=
  if String.eqb contrastLevel "High" then 90
  else if String.eqb contrastLevel "Medium" then 60
  else 30.

Definition radarData (analysis : CompositionAnalysis) : list RadarPoint :=
  [ {| subject := "Rule of 3rds";
       A := ruleOfThirdsScore analysis; fullMark := 100 |};
    {| subject := "Balance";
       A := visualBalanceScore analysis; fullMark := 100 |};
    {| subject := "Contrast";
       A := contrastScore (contrastLevel analysis); fullMark := 100 |};
    {| subject := "Eye Contact";
       A := if eyeContact analysis then 100 else 20; fullMark := 100 |} ].

End AnalysisPanel.

(** Further concrete data. *)
Module MoreSamples.

Definition page : Downloads.Page :=
  {| Downloads.body := [0; 1; 2]%nat;
     Downloads.fresh := 3%nat;
     Downloads.saves := [] |}.

(** A document whose context is available and whose encoder names the
    canvas size. *)
Definition canvasDocument : ImageProcessing.Document :=
  {| ImageProcessing.getContext2d := Some ImageProcessing.Context2D;
     ImageProcessing.toDataURL := fun _ _ =>
       JS.Return "data:image/png;base64,AAAA"%string |}.

Definition result : ProcessingResult :=
  GeminiService.normalize Samples.clock Samples.threeLayers.

Definition wellFormedLayer : GeminiService.RawLayer :=
  Samples.rawLayer PERSON None 1.

(** A session in which the key is missing. *)
Definition unconfiguredSession : App.Hooks :=
  App.handle
    (App.AnalysisSettled Samples.clock None
       (GeminiService.Parsed Samples.threeLayers))
    (App.handle (App.ImageSelected "data:image/png;base64,iVBORw0KGgo=")
       App.initial).

(** Thumbnails in which one layer of [result] has an entry already. *)
Definition cached : LayerList.Thumbnails :=
  [("layer-1-1700000000001", "data:image/png;base64,BBBB")]%string.

(** [cached] after the thumbnail effect has run for [result]. *)
Definition refreshed : LayerList.Thumbnails :=
  [("layer-1-1700000000001", "data:image/png;base64,BBBB");
   ("layer-2-1700000000002", "data:image/png;base64,AAAA");
   ("layer-0-1700000000000", "data:image/png;base64,AAAA")]%string.

(** The thumbnails the effect builds for [result] from nothing. *)
Definition thumbnails : LayerList.Thumbnails :=
  [("layer-1-1700000000001", "data:image/png;base64,AAAA");
   ("layer-2-1700000000002", "data:image/png;base64,AAAA");
   ("layer-0-1700000000000", "data:image/png;base64,AAAA")]%string.

(** The thumbnails the effect builds when no 2D context is to be had. *)
Definition blankThumbnails : LayerList.Thumbnails :=
  [("layer-1-1700000000001", EmptyString);
   ("layer-2-1700000000002", EmptyString);
   ("layer-0-1700000000000", EmptyString)]%string.

(** A response layer that leaves the frame on the left and at the top. *)
Definition offFrameLayer : GeminiService.RawLayer :=
  {| GeminiService.raw_label := "Wide";
     GeminiService.raw_type := OBJECT;
     GeminiService.raw_subtype := None;
     GeminiService.raw_confidence := None;
     GeminiService.raw_ymin := -250;
     GeminiService.raw_xmin := -500;
     GeminiService.raw_ymax := 500;
     GeminiService.raw_xmax := 500;
     GeminiService.raw_zIndex := 1;
     GeminiService.raw_dominantColor := "#ffffff" |}.

(** The layer of [result] stacked lowest. *)
Definition backLayer : LayerData :=
  GeminiService.mapLayer Samples.clock
    (Samples.rawLayer BACKGROUND None 1) 1.

End MoreSamples.

(** A box inside the unit square, its corners in order. *)
Definition unitBox (b : BoundingBox) : Prop :=
  0 <= xmin b /\ xmin b <= xmax b /\ xmax b <= 1
  /\ 0 <= ymin b /\ ymin b <= ymax b /\ ymax b <= 1.

(** A response layer whose corners are in order on the 0-1000 scale. *)
Definition rawBoxInRange (l : GeminiService.RawLayer) : Prop :=
  0 <= GeminiService.raw_xmin l
  /\ GeminiService.raw_xmin l <= GeminiService.raw_xmax l
  /\ GeminiService.raw_xmax l <= 1000
  /\ 0 <= GeminiService.raw_ymin l
  /\ GeminiService.raw_ymin l <= GeminiService.raw_ymax l
  /\ GeminiService.raw_ymax l <= 1000.

(** The point lies on the radar chart's axis, between 0 and its full
    mark. *)
Definition inChart (p : AnalysisPanel.RadarPoint) : Prop :=
  0 <= AnalysisPanel.A p /\ AnalysisPanel.A p <= AnalysisPanel.fullMark p.

(* ================================================================== *)
(** * Properties *)

(** ** Rounding to the nearest double *)

Section Logarithm.
Import Double.

Lemma pow2_pos k : 0 < 2 ^ k.
Proof. now apply Qpower_0_lt. Qed.

Lemma pow2_le a b : (a <= b)%Z -> 2 ^ a <= 2 ^ b.
Proof. intros H. now apply Qpower_le_compat_l. Qed.

Lemma pow2_lt a b : (a < b)%Z -> 2 ^ a < 2 ^ b.
Proof. intros H. now apply Qpower_lt_compat_l. Qed.

Lemma pow2_plus a b : 2 ^ (a + b) == 2 ^ a * 2 ^ b.
Proof. now apply Qpower_plus. Qed.

Lemma pow2_minus a b : 2 ^ (a - b) == 2 ^ a / 2 ^ b.
Proof. now apply Qpower_minus. Qed.

Lemma pow2_succ a : 2 ^ (a + 1) == 2 * 2 ^ a.
Proof. rewrite pow2_plus. change (2 ^ 1) with 2. ring. Qed.

Lemma pow2_Z a : (0 <= a)%Z -> inject_Z (2 ^ a) == 2 ^ a.
Proof. intros H. now rewrite Zpower_Qpower. Qed.

Lemma pow2_lt_inv a b : 2 ^ a < 2 ^ b -> (a < b)%Z.
Proof.
  intros H. destruct (Z_lt_le_dec a b) as [L|L]; [exact L|].
  apply pow2_le in L. exfalso. apply (Qlt_irrefl (2 ^ a)).
  now apply Qlt_le_trans with (2 ^ b).
Qed.

Lemma Q_as_quotient q : q == inject_Z (Qnum q) / inject_Z (Zpos (Qden q)).
Proof. destruct q as [n d]. cbn [Qnum Qden]. apply Qmake_Qdiv. Qed.

Lemma ilog2_bounds q :
  0 < q ->
  let k := (Z.log2 (Qnum q) - Z.log2 (Zpos (Qden q)))%Z in
  2 ^ (k - 1) < q /\ q < 2 ^ (k + 1).
Proof.
  intros Hq k.
  assert (Hn : (0 < Qnum q)%Z).
  { destruct q as [n d]. unfold Qlt in Hq. cbn in *. lia. }
  set (n := Qnum q) in *. set (d := Zpos (Qden q)) in *.
  assert (Hd : (0 < d)%Z) by (subst d; lia).
  pose proof (Z.log2_spec n Hn) as [Hn1 Hn2].
  pose proof (Z.log2_spec d Hd) as [Hd1 Hd2].
  pose proof (Z.log2_nonneg n) as Ha. pose proof (Z.log2_nonneg d) as Hb.
  set (a := Z.log2 n) in *. set (b := Z.log2 d) in *.
  assert (Hdq : 0 < inject_Z d)
    by (change 0 with (inject_Z 0); now rewrite <- Zlt_Qlt).
  assert (E : q == inject_Z n / inject_Z d) by apply Q_as_quotient.
  assert (Qn1 : 2 ^ a <= inject_Z n)
    by (rewrite <- pow2_Z by lia; now rewrite <- Zle_Qle).
  assert (Qn2 : inject_Z n < 2 ^ (a + 1))
    by (rewrite <- pow2_Z by lia; rewrite <- Zlt_Qlt;
        now rewrite <- Z.add_1_r in Hn2).
  assert (Qd1 : 2 ^ b <= inject_Z d)
    by (rewrite <- pow2_Z by lia; now rewrite <- Zle_Qle).
  assert (Qd2 : inject_Z d < 2 ^ (b + 1))
    by (rewrite <- pow2_Z by lia; rewrite <- Zlt_Qlt;
        now rewrite <- Z.add_1_r in Hd2).
  subst k. split.
  - rewrite E. apply Qlt_shift_div_l; [exact Hdq|].
    apply Qlt_le_trans with (2 ^ (a - b - 1) * 2 ^ (b + 1)).
    + apply Qmult_lt_l; [apply pow2_pos|exact Qd2].
    + rewrite <- pow2_plus. replace (a - b - 1 + (b + 1))%Z with a by lia.
      exact Qn1.
  - rewrite E. apply Qlt_shift_div_r; [exact Hdq|].
    apply Qlt_le_trans with (2 ^ (a + 1)); [exact Qn2|].
    replace (a + 1)%Z with ((a - b + 1) + b)%Z by lia.
    rewrite pow2_plus. apply Qmult_le_l; [apply pow2_pos|exact Qd1].
Qed.

Lemma ilog2_spec q :
  0 < q -> 2 ^ (ilog2 q) <= q /\ q < 2 ^ (ilog2 q + 1).
Proof.
  intros Hq. destruct (@ilog2_bounds q Hq) as [H1 H2]. unfold ilog2.
  set (k := (Z.log2 (Qnum q) - Z.log2 (Zpos (Qden q)))%Z) in *.
  destruct (Qle_bool (2 ^ k) q) eqn:E.
  - apply Qle_bool_iff in E. now split.
  - split; [now apply Qlt_le_weak|].
    replace (k - 1 + 1)%Z with k by lia.
    apply Qnot_le_lt. intros H. apply Qle_bool_iff in H. congruence.
Qed.

Lemma ilog2_unique q k :
  2 ^ k <= q -> q < 2 ^ (k + 1) -> ilog2 q = k.
Proof.
  intros H1 H2.
  assert (Hq : 0 < q)
    by (apply Qlt_le_trans with (2 ^ k); [apply pow2_pos|exact H1]).
  destruct (@ilog2_spec q Hq) as [L1 L2].
  assert (A : (ilog2 q < k + 1)%Z)
    by (apply pow2_lt_inv; now apply Qle_lt_trans with q).
  assert (B : (k < ilog2 q + 1)%Z)
    by (apply pow2_lt_inv; now apply Qle_lt_trans with q).
  lia.
Qed.

Lemma ilog2_compat p q : 0 < p -> p == q -> ilog2 p = ilog2 q.
Proof.
  intros Hp E. destruct (@ilog2_spec p Hp) as [L1 L2].
  symmetry. apply ilog2_unique; now rewrite <- E.
Qed.

Lemma ilog2_mono p q : 0 < p -> p <= q -> (ilog2 p <= ilog2 q)%Z.
Proof.
  intros Hp Hpq.
  assert (Hq : 0 < q) by now apply Qlt_le_trans with p.
  destruct (@ilog2_spec p Hp) as [P1 P2].
  destruct (@ilog2_spec q Hq) as [Q1 Q2].
  assert (A : (ilog2 p < ilog2 q + 1)%Z).
  { apply pow2_lt_inv. apply Qle_lt_trans with p; [exact P1|].
    now apply Qle_lt_trans with q. }
  lia.
Qed.
End Logarithm.

Section NearestEven.
Import Double.

Lemma inject_Z_succ k : inject_Z (k + 1) == inject_Z k + 1.
Proof. now rewrite inject_Z_plus. Qed.

Lemma nearest_even_nearest q : nearest q (nearest_even q).
Proof.
  unfold nearest, nearest_even.
  pose proof (Qfloor_le q) as H1. pose proof (Qlt_floor q) as H2.
  rewrite inject_Z_succ in H2.
  set (k := Qfloor q) in *.
  destruct (Qcompare (q - inject_Z k) (1 # 2)) eqn:E.
  - apply Qeq_alt in E.
    destruct (Z.even k) eqn:Ev.
    + split; [lra|split; [lra|]]. intros _. exact Ev.
    + rewrite inject_Z_succ. split; [lra|split; [lra|]]. intros _.
      rewrite Z.even_add, Ev. reflexivity.
  - apply Qlt_alt in E. split; [lra|split; [lra|]]. intros [H|H]; lra.
  - apply Qgt_alt in E. rewrite inject_Z_succ.
    split; [lra|split; [lra|]]. intros [H|H]; lra.
Qed.

Lemma Z_between (a b : Z) : inject_Z a < inject_Z b + 1 -> (a <= b)%Z.
Proof.
  intros H. rewrite <- inject_Z_succ in H. rewrite <- Zlt_Qlt in H. lia.
Qed.

Lemma nearest_unique q m m' : nearest q m -> nearest q m' -> m = m'.
Proof.
  intros (A1 & A2 & A3) (B1 & B2 & B3).
  assert (L : (m <= m' + 1)%Z).
  { apply Z_between. rewrite inject_Z_succ. lra. }
  assert (R : (m' <= m + 1)%Z).
  { apply Z_between. rewrite inject_Z_succ. lra. }
  destruct (Z.eq_dec m m') as [E|N]; [exact E|exfalso].
  assert (C : m = (m' + 1)%Z \/ m' = (m + 1)%Z) by lia.
  destruct C as [C|C]; subst.
  - rewrite inject_Z_succ in *.
    assert (E1 : q == inject_Z m' + 1 - (1 # 2)) by lra.
    assert (E2 : q == inject_Z m' + (1 # 2)) by lra.
    specialize (A3 (or_introl E1)). specialize (B3 (or_intror E2)).
    rewrite Z.even_add in A3. rewrite B3 in A3. discriminate.
  - rewrite inject_Z_succ in *.
    assert (E1 : q == inject_Z m + 1 - (1 # 2)) by lra.
    assert (E2 : q == inject_Z m + (1 # 2)) by lra.
    specialize (B3 (or_introl E1)). specialize (A3 (or_intror E2)).
    rewrite Z.even_add in B3. rewrite A3 in B3. discriminate.
Qed.

Lemma nearest_even_compat p q : p == q -> nearest_even p = nearest_even q.
Proof.
  intros E. apply nearest_unique with q; [|apply nearest_even_nearest].
  destruct (nearest_even_nearest p) as (A1 & A2 & A3).
  split; [lra|split; [lra|]].
  intros H. apply A3. destruct H as [H|H]; [left|right]; lra.
Qed.

Lemma nearest_even_Z z : nearest_even (inject_Z z) = z.
Proof.
  symmetry. apply nearest_unique with (inject_Z z);
    [|apply nearest_even_nearest].
  split; [lra|split; [lra|]]. intros [H|H]; lra.
Qed.

Lemma nearest_even_opp q : nearest_even (- q) = (- nearest_even q)%Z.
Proof.
  symmetry. apply nearest_unique with (- q); [|apply nearest_even_nearest].
  destruct (nearest_even_nearest q) as (A1 & A2 & A3).
  unfold nearest. rewrite inject_Z_opp. split; [lra|split; [lra|]].
  intros H. rewrite Z.even_opp. apply A3.
  destruct H as [H|H]; [right|left]; lra.
Qed.

Lemma nearest_even_mono p q :
  p <= q -> (nearest_even p <= nearest_even q)%Z.
Proof.
  intros Hpq.
  destruct (nearest_even_nearest p) as (A1 & A2 & A3).
  destruct (nearest_even_nearest q) as (B1 & B2 & B3).
  set (m := nearest_even p) in *. set (m' := nearest_even q) in *.
  assert (L : (m <= m' + 1)%Z).
  { apply Z_between. rewrite inject_Z_succ. lra. }
  destruct (Z.eq_dec m (m' + 1)) as [E|N]; [exfalso|lia].
  rewrite E, inject_Z_succ in *.
  assert (E1 : p == inject_Z m' + 1 - (1 # 2)) by lra.
  assert (E2 : q == inject_Z m' + (1 # 2)) by lra.
  specialize (A3 (or_introl E1)). specialize (B3 (or_intror E2)).
  rewrite Z.even_add in A3. rewrite B3 in A3. discriminate.
Qed.

Lemma nearest_even_err q :
  Qabs (inject_Z (nearest_even q) - q) <= 1 # 2.
Proof.
  destruct (nearest_even_nearest q) as (A1 & A2 & _).
  apply Qabs_Qle_condition. split; lra.
Qed.

Lemma nearest_even_ge q z :
  inject_Z z <= q -> (z <= nearest_even q)%Z.
Proof.
  intros H. rewrite <- (nearest_even_Z z). now apply nearest_even_mono.
Qed.

Lemma nearest_even_le q z :
  q <= inject_Z z -> (nearest_even q <= z)%Z.
Proof.
  intros H. rewrite <- (nearest_even_Z z). now apply nearest_even_mono.
Qed.
End NearestEven.

Section RoundFacts.
Import Double.

Lemma round_zero q : q == 0 -> round q = 0.
Proof.
  intros E. unfold round. apply Qeq_bool_iff in E. now rewrite E.
Qed.

Lemma round_eq q :
  ~ q == 0 ->
  round q
  == inject_Z (nearest_even (q / 2 ^ exponent q)) * 2 ^ exponent q.
Proof.
  intros N. unfold round.
  destruct (Qeq_bool q 0) eqn:E; [apply Qeq_bool_iff in E; contradiction|].
  apply Qred_correct.
Qed.

Lemma Qabs_pos_nonzero q : ~ q == 0 -> 0 < Qabs q.
Proof.
  intros N. destruct (Qlt_le_dec 0 (Qabs q)) as [H|H]; [exact H|].
  exfalso. apply N. pose proof (Qabs_nonneg q) as H0.
  assert (E : Qabs q == 0) by lra.
  destruct (Qabs_Qle_condition q 0) as [C _].
  destruct C as [C1 C2]; [lra|lra].
Qed.

Lemma exponent_compat p q : ~ p == 0 -> p == q -> exponent p = exponent q.
Proof.
  intros N E. unfold exponent. f_equal. f_equal.
  apply ilog2_compat; [now apply Qabs_pos_nonzero|now rewrite E].
Qed.

Lemma exponent_opp q : ~ q == 0 -> exponent (- q) = exponent q.
Proof.
  intros N. unfold exponent. f_equal. f_equal.
  apply ilog2_compat; [|apply Qabs_opp].
  apply Qabs_pos_nonzero. lra.
Qed.

Lemma exponent_emin q : (emin <= exponent q)%Z.
Proof. unfold exponent. lia. Qed.

Lemma round_compat p q : p == q -> round p == round q.
Proof.
  intros E. destruct (Qeq_dec p 0) as [Z|N].
  - rewrite (@round_zero p Z). rewrite (@round_zero q); [reflexivity|lra].
  - assert (N' : ~ q == 0) by lra.
    rewrite (round_eq N), (round_eq N'), (exponent_compat N E).
    rewrite (@nearest_even_compat (p / 2 ^ exponent q)
               (q / 2 ^ exponent q));
      [reflexivity|now rewrite E].
Qed.

#[global] Instance round_Proper : Proper (Qeq ==> Qeq) round.
Proof. intros p q E. now apply round_compat. Qed.

Lemma round_opp q : round (- q) == - round q.
Proof.
  destruct (Qeq_dec q 0) as [Z|N].
  - rewrite (@round_zero q Z). rewrite (@round_zero (- q)); lra.
  - assert (N' : ~ - q == 0) by lra.
    rewrite (round_eq N), (round_eq N'), (exponent_opp N).
    rewrite (@nearest_even_compat (- q / 2 ^ exponent q)
               (- (q / 2 ^ exponent q))).
    + rewrite nearest_even_opp, inject_Z_opp. ring.
    + pose proof (pow2_pos (exponent q)). field. lra.
Qed.

(** The scaled value of a positive number lies below 2^53, and from 2^52
    on unless the number is subnormal. *)
Lemma scaled_bounds q :
  0 < q ->
  q / 2 ^ exponent q < 2 ^ 53
  /\ ((emin < exponent q)%Z -> 2 ^ 52 <= q / 2 ^ exponent q).
Proof.
  intros Hq. pose proof (pow2_pos (exponent q)) as He.
  assert (Ea : ilog2 (Qabs q) = ilog2 q).
  { apply ilog2_compat; [apply Qabs_pos_nonzero; lra|].
    apply Qabs_pos. lra. }
  destruct (@ilog2_spec q Hq) as [L1 L2].
  unfold exponent in *. rewrite Ea in *.
  set (L := ilog2 q) in *. set (e := Z.max (L - 52) emin) in *.
  split.
  - apply Qlt_shift_div_r; [exact He|].
    rewrite <- pow2_plus.
    apply Qlt_le_trans with (2 ^ (L + 1)); [exact L2|].
    apply pow2_le. lia.
  - intros Hm. apply Qle_shift_div_l; [exact He|].
    rewrite <- pow2_plus. replace (52 + e)%Z with L by lia. exact L1.
Qed.

Lemma mantissa_bounds q :
  0 < q ->
  let m := nearest_even (q / 2 ^ exponent q) in
  (0 <= m <= 2 ^ 53)%Z
  /\ ((emin < exponent q)%Z -> (2 ^ 52 <= m)%Z).
Proof.
  intros Hq m. destruct (scaled_bounds Hq) as [S1 S2].
  pose proof (pow2_pos (exponent q)) as He.
  assert (S0 : 0 <= q / 2 ^ exponent q).
  { apply Qle_shift_div_l; [exact He|]. lra. }
  split; [split|].
  - apply nearest_even_ge. exact S0.
  - apply nearest_even_le. rewrite pow2_Z by lia. lra.
  - intros Hm. apply nearest_even_ge. rewrite pow2_Z by lia. now apply S2.
Qed.

Lemma round_nonneg q : 0 <= q -> 0 <= round q.
Proof.
  intros Hq. destruct (Qeq_dec q 0) as [Z|N].
  - rewrite (@round_zero q Z). lra.
  - assert (P : 0 < q) by lra.
    rewrite (round_eq N). destruct (mantissa_bounds P) as [[M _] _].
    apply Qmult_le_0_compat.
    + change 0 with (inject_Z 0). now rewrite <- Zle_Qle.
    + apply Qlt_le_weak, pow2_pos.
Qed.

Lemma round_nonpos q : q <= 0 -> round q <= 0.
Proof.
  intros Hq. assert (H : 0 <= round (- q)) by (apply round_nonneg; lra).
  rewrite round_opp in H. lra.
Qed.

Lemma round_mono_pos p q : 0 < p -> p <= q -> round p <= round q.
Proof.
  intros Hp Hpq. assert (Hq : 0 < q) by lra.
  assert (Np : ~ p == 0) by lra. assert (Nq : ~ q == 0) by lra.
  rewrite (round_eq Np), (round_eq Nq).
  destruct (mantissa_bounds Hp) as [[_ P2] _].
  destruct (mantissa_bounds Hq) as [_ Q3].
  assert (Le : (exponent p <= exponent q)%Z).
  { unfold exponent. apply Z.max_le_compat_r.
    apply Z.sub_le_mono_r. apply ilog2_mono.
    - apply Qabs_pos_nonzero; lra.
    - rewrite !Qabs_pos by lra. exact Hpq. }
  pose proof (pow2_pos (exponent p)) as Ep.
  pose proof (pow2_pos (exponent q)) as Eq.
  destruct (Z.eq_dec (exponent p) (exponent q)) as [E|N].
  - rewrite E in *. apply Qmult_le_compat_r; [|lra].
    rewrite <- Zle_Qle. apply nearest_even_mono.
    apply Qmult_le_compat_r; [exact Hpq|].
    apply Qlt_le_weak, Qinv_lt_0_compat, Eq.
  - assert (Lt : (exponent p < exponent q)%Z) by lia.
    assert (Q3' : (2 ^ 52 <= nearest_even (q / 2 ^ exponent q))%Z).
    { apply Q3. pose proof (exponent_emin p). lia. }
    apply Qle_trans with (2 ^ 53 * 2 ^ exponent p).
    + apply Qmult_le_compat_r; [|lra].
      rewrite <- (@pow2_Z 53) by lia. now rewrite <- Zle_Qle.
    + apply Qle_trans with (2 ^ 52 * 2 ^ exponent q).
      * rewrite <- !pow2_plus. apply pow2_le. lia.
      * apply Qmult_le_compat_r; [|lra].
        rewrite <- (@pow2_Z 52) by lia. now rewrite <- Zle_Qle.
Qed.

(** Rounding keeps the order. *)
Lemma round_mono p q : p <= q -> round p <= round q.
Proof.
  intros Hpq. destruct (Qlt_le_dec 0 p) as [Hp|Hp].
  - now apply round_mono_pos.
  - destruct (Qlt_le_dec q 0) as [Hq|Hq].
    + assert (H : round (- q) <= round (- p))
        by (apply round_mono_pos; lra).
      rewrite !round_opp in H. lra.
    + apply Qle_trans with 0;
        [now apply round_nonpos|now apply round_nonneg].
Qed.
End RoundFacts.

Section Representable.
Import Double.

Lemma round_integer_scaled q z :
  ~ q == 0 ->
  q / 2 ^ exponent q == inject_Z z ->
  round q == q.
Proof.
  intros N E. rewrite (round_eq N).
  rewrite (nearest_even_compat E), nearest_even_Z, <- E.
  pose proof (pow2_pos (exponent q)). field. lra.
Qed.

Lemma round_representable_pos m e :
  (0 < m <= 2 ^ 53)%Z -> (emin <= e)%Z ->
  round (inject_Z m * 2 ^ e) == inject_Z m * 2 ^ e.
Proof.
  intros [Hm0 Hm] He.
  pose proof (pow2_pos e) as Pe.
  assert (Qm : 0 < inject_Z m)
    by (change 0 with (inject_Z 0); now rewrite <- Zlt_Qlt).
  set (y := inject_Z m * 2 ^ e).
  assert (Hy : 0 < y) by (apply Qmult_lt_0_compat; assumption).
  pose proof (Z.log2_spec m Hm0) as [A1 A2].
  pose proof (Z.log2_nonneg m) as A0.
  set (a := Z.log2 m) in *. clearbody a. rewrite <- Z.add_1_r in A2.
  assert (A53 : (a <= 53)%Z).
  { destruct (Z_le_gt_dec a 53) as [L|G]; [exact L|exfalso].
    assert ((2 ^ 54 <= 2 ^ a)%Z) by (apply Z.pow_le_mono_r; lia).
    assert ((2 ^ 53 < 2 ^ 54)%Z) by reflexivity.
    apply (Z.lt_irrefl (2 ^ 53)).
    apply Z.lt_le_trans with (2 ^ 54)%Z; [assumption|].
    apply Z.le_trans with (2 ^ a)%Z; [assumption|].
    now apply Z.le_trans with m. }
  assert (L : ilog2 (Qabs y) = (a + e)%Z).
  { apply ilog2_unique; rewrite (Qabs_pos y) by lra; unfold y.
    - rewrite pow2_plus. apply Qmult_le_compat_r; [|lra].
      rewrite <- (@pow2_Z a) by lia. now rewrite <- Zle_Qle.
    - replace (a + e + 1)%Z with ((a + 1) + e)%Z by lia.
      rewrite pow2_plus. apply Qmult_lt_compat_r; [exact Pe|].
      rewrite <- (@pow2_Z (a + 1)) by lia. now rewrite <- Zlt_Qlt. }
  assert (N : ~ y == 0) by lra.
  assert (Ex : exponent y = Z.max (a + e - 52) emin)
    by (unfold exponent; now rewrite L).
  destruct (Z_le_gt_dec a 52) as [Small|Big].
  - apply round_integer_scaled with (z := (m * 2 ^ (e - exponent y))%Z);
      [exact N|].
    assert (Le : (exponent y <= e)%Z) by lia.
    rewrite inject_Z_mult, (@pow2_Z (e - exponent y)) by lia.
    rewrite pow2_minus. pose proof (pow2_pos (exponent y)) as Py.
    unfold y in *. field. lra.
  - assert (a = 53%Z) by lia. subst a.
    assert (Em : m = (2 ^ 53)%Z) by lia.
    assert (Ee : exponent y = (e + 1)%Z) by lia.
    apply round_integer_scaled with (z := (2 ^ 52)%Z); [exact N|].
    rewrite Ee. unfold y. rewrite Em, (@pow2_Z 53), (@pow2_Z 52) by lia.
    rewrite pow2_succ. change (2 ^ 53) with (2 * 2 ^ 52).
    field. lra.
Qed.

(** A mantissa of at most 53 bits times a power of two from 2^-1074 on is
    a double. *)
Lemma round_representable m e :
  (Z.abs m <= 2 ^ 53)%Z -> (emin <= e)%Z ->
  round (inject_Z m * 2 ^ e) == inject_Z m * 2 ^ e.
Proof.
  intros Hm He. destruct (Z.lt_trichotomy m 0) as [Neg|[Zero|Pos]].
  - assert (H : round (inject_Z (- m) * 2 ^ e) == inject_Z (- m) * 2 ^ e)
      by (apply round_representable_pos; lia).
    rewrite inject_Z_opp in H.
    assert (E : - inject_Z m * 2 ^ e == - (inject_Z m * 2 ^ e)) by ring.
    rewrite E, round_opp in H. lra.
  - subst m. rewrite round_zero; [|ring]. ring.
  - apply round_representable_pos; lia.
Qed.

Lemma round_Z z : (Z.abs z <= 2 ^ 53)%Z -> round (inject_Z z) == inject_Z z.
Proof.
  intros H.
  assert (E : inject_Z z == inject_Z z * 2 ^ 0) by (cbn; ring).
  rewrite E at 1.
  rewrite round_representable; [cbn; ring|exact H|discriminate].
Qed.

Lemma round_idem_pos q : 0 < q -> round (round q) == round q.
Proof.
  intros Hq. assert (N : ~ q == 0) by lra.
  destruct (mantissa_bounds Hq) as [[M0 M1] _].
  rewrite (round_eq N).
  apply round_representable; [lia|apply exponent_emin].
Qed.

(** A rounded number is a double. *)
Lemma round_idem q : round (round q) == round q.
Proof.
  destruct (Q_dec q 0) as [[Neg|Pos]|Zero].
  - assert (H : round (round (- q)) == round (- q))
      by (apply round_idem_pos; lra).
    rewrite round_opp in H. rewrite round_opp in H. lra.
  - now apply round_idem_pos.
  - rewrite (round_zero Zero). now rewrite round_zero.
Qed.

(** Every double is a whole number of units 2^-1074. *)
Lemma round_grid q : exists z, round q == inject_Z z * 2 ^ emin.
Proof.
  destruct (Qeq_dec q 0) as [Zero|N].
  - exists 0%Z. rewrite (round_zero Zero). ring.
  - pose proof (exponent_emin q) as He.
    exists (nearest_even (q / 2 ^ exponent q) * 2 ^ (exponent q - emin))%Z.
    rewrite (round_eq N), inject_Z_mult,
      (@pow2_Z (exponent q - emin)) by lia.
    rewrite pow2_minus. pose proof (pow2_pos emin). field. lra.
Qed.

(** Rounding moves a number by half a unit in the last place at most. *)
Lemma round_err q :
  Qabs (round q - q) <= 2 ^ exponent q * (1 # 2).
Proof.
  pose proof (pow2_pos (exponent q)) as Pe.
  destruct (Qeq_dec q 0) as [Zero|N].
  - rewrite (round_zero Zero).
    assert (E : 0 - q == 0) by lra. rewrite E. cbn [Qabs Z.abs Qnum Qden].
    lra.
  - rewrite (round_eq N).
    set (s := q / 2 ^ exponent q).
    assert (E : inject_Z (nearest_even s) * 2 ^ exponent q - q
                == (inject_Z (nearest_even s) - s) * 2 ^ exponent q)
      by (unfold s; field; lra).
    rewrite E, Qabs_Qmult, (Qabs_pos (2 ^ exponent q)) by lra.
    rewrite (Qmult_comm (2 ^ exponent q)).
    apply Qmult_le_compat_r; [apply nearest_even_err|lra].
Qed.

Lemma exponent_le q k :
  0 < q -> q < 2 ^ (k + 1) -> (emin <= k - 52)%Z ->
  (exponent q <= k - 52)%Z.
Proof.
  intros Hq Hk Hm.
  destruct (@ilog2_spec q Hq) as [L1 _].
  assert (E : ilog2 (Qabs q) = ilog2 q).
  { apply ilog2_compat; [apply Qabs_pos_nonzero; lra|apply Qabs_pos; lra]. }
  assert ((ilog2 q < k + 1)%Z)
    by (apply pow2_lt_inv; now apply Qle_lt_trans with q).
  unfold exponent. rewrite E. lia.
Qed.

(** Rounding a number of the unit interval moves it by 2^-54 at most. *)
Lemma round_err_unit q :
  0 <= q -> q <= 1 -> Qabs (round q - q) <= 2 ^ (-54).
Proof.
  intros H0 H1. destruct (Qeq_dec q 1) as [One|N1].
  - rewrite One. change 1 with (inject_Z 1). rewrite round_Z by (cbn; lia).
    now cbn.
  - destruct (Qeq_dec q 0) as [Zero|N0].
    + rewrite (round_zero Zero).
      assert (E : 0 - q == 0) by lra. rewrite E. now cbn.
    + apply Qle_trans with (2 ^ exponent q * (1 # 2)); [apply round_err|].
      assert (Le : (exponent q <= -1 - 52)%Z).
      { apply exponent_le; [lra| |discriminate].
        change (2 ^ (-1 + 1)) with 1. lra. }
      apply Qle_trans with (2 ^ (-53) * (1 # 2)).
      * apply Qmult_le_compat_r; [apply pow2_le; lia|discriminate].
      * now cbn.
Qed.

(** Rounding a number between 0 and [B] moves it by [B]*2^-53 at most. *)
Lemma round_err_scaled q B :
  0 <= q -> q <= B -> 1 <= B -> Qabs (round q - q) <= B * 2 ^ (-53).
Proof.
  intros H0 H1 HB.
  assert (PB : 0 < B) by lra.
  destruct (Qeq_dec q 0) as [Zero|N0].
  - rewrite (round_zero Zero).
    assert (E : 0 - q == 0) by lra. rewrite E. cbn [Qabs Z.abs Qnum Qden].
    apply Qmult_le_0_compat; [lra|apply Qlt_le_weak, pow2_pos].
  - destruct (@ilog2_spec B PB) as [B1 B2].
    assert (LB : (0 <= ilog2 B)%Z).
    { assert ((0 < ilog2 B + 1)%Z); [|lia].
      apply pow2_lt_inv. apply Qle_lt_trans with B; [|exact B2].
      change (2 ^ 0) with 1. exact HB. }
    apply Qle_trans with (2 ^ exponent q * (1 # 2)); [apply round_err|].
    assert (Le : (exponent q <= ilog2 B - 52)%Z).
    { apply exponent_le; [lra|lra|unfold emin; lia]. }
    apply Qle_trans with (2 ^ (ilog2 B - 52) * (1 # 2)).
    + apply Qmult_le_compat_r; [now apply pow2_le|discriminate].
    + replace (ilog2 B - 52)%Z with (ilog2 B + (-53) + 1)%Z by lia.
      rewrite pow2_succ, pow2_plus.
      apply Qle_trans with (2 ^ ilog2 B * 2 ^ (-53)).
      * assert (E : 2 * (2 ^ ilog2 B * 2 ^ (-53)) * (1 # 2)
                    == 2 ^ ilog2 B * 2 ^ (-53)) by ring.
        rewrite E. apply Qle_refl.
      * apply Qmult_le_compat_r; [exact B1|now cbn].
Qed.
End Representable.

(** ** [Array.prototype.sort] with a comparator that subtracts integer keys *)

Section SortByKey.
Variable A : Type.
Variable key : A -> Z.
Variable comparefn : A -> A -> Z.
Hypothesis comparefn_key : forall a b, comparefn a b = (key a - key b)%Z.

Let le_key (a b : A) : Prop := (key a <= key b)%Z.
Let has_key (k : Z) (a : A) : bool := (key a =? k)%Z.

Lemma sort_insert_perm e l :
  Permutation (e :: l) (JS.sort_insert comparefn e l).
Proof.
  induction l as [|h rest IH]; simpl; [reflexivity|].
  destruct (comparefn e h >? 0)%Z; [|reflexivity].
  rewrite perm_swap. now apply perm_skip.
Qed.

Lemma Array_sort_perm l : Permutation l (JS.Array_sort comparefn l).
Proof.
  induction l as [|e rest IH]; simpl; [reflexivity|].
  rewrite <- sort_insert_perm. now apply perm_skip.
Qed.

Lemma sort_insert_sorted e l :
  StronglySorted le_key l ->
  StronglySorted le_key (JS.sort_insert comparefn e l).
Proof.
  induction 1 as [|h rest Hs IH Hall]; simpl.
  - repeat constructor.
  - rewrite comparefn_key.
    destruct (key e - key h >? 0)%Z eqn:Hc.
    + constructor; [exact IH|].
      rewrite <- sort_insert_perm. constructor; [|exact Hall].
      unfold le_key. lia.
    + constructor; [now constructor|].
      assert (Heh : le_key e h) by (unfold le_key; lia).
      constructor; [exact Heh|].
      revert Hall. apply Forall_impl. unfold le_key in *. intros; lia.
Qed.

Lemma Array_sort_sorted l :
  StronglySorted le_key (JS.Array_sort comparefn l).
Proof.
  induction l as [|e rest IH]; simpl; [constructor|].
  now apply sort_insert_sorted.
Qed.

(** Insertion never carries an element across one with the same key. *)
Lemma sort_insert_filter k e l :
  filter (has_key k) (JS.sort_insert comparefn e l)
  = filter (has_key k) (e :: l).
Proof.
  induction l as [|h rest IH]; [reflexivity|].
  cbn [JS.sort_insert]. rewrite comparefn_key.
  destruct (key e - key h >? 0)%Z eqn:Hc; [|reflexivity].
  cbn [filter] in *. rewrite IH. unfold has_key.
  destruct (key e =? k)%Z eqn:He, (key h =? k)%Z eqn:Hh; try reflexivity.
  lia.
Qed.

Lemma Array_sort_stable k l :
  filter (has_key k) (JS.Array_sort comparefn l) = filter (has_key k) l.
Proof.
  induction l as [|e rest IH]; [reflexivity|].
  cbn [JS.Array_sort]. rewrite sort_insert_filter.
  cbn [filter]. now rewrite IH.
Qed.

(** An element no larger than the whole array stays in front. *)
Lemma Array_sort_least_first e l :
  Forall (le_key e) l ->
  JS.Array_sort comparefn (e :: l) = e :: JS.Array_sort comparefn l.
Proof.
  intros Hall. cbn [JS.Array_sort].
  assert (Hs : Forall (le_key e) (JS.Array_sort comparefn l))
    by now rewrite <- Array_sort_perm.
  destruct (JS.Array_sort comparefn l) as [|h rest]; [reflexivity|].
  cbn [JS.sort_insert]. rewrite comparefn_key.
  inversion_clear Hs as [|? ? Hh _]. unfold le_key in Hh.
  destruct (key e - key h >? 0)%Z eqn:Hc; [lia|reflexivity].
Qed.

(** The three properties above determine the result: whatever stable
    algorithm an engine runs, it returns this list. *)
Lemma stable_sorted_unique l1 l2 :
  StronglySorted le_key l1 -> StronglySorted le_key l2 ->
  (forall k, filter (has_key k) l1 = filter (has_key k) l2) ->
  l1 = l2.
Proof.
  intros H1. revert l2.
  induction H1 as [|a l1 Hs1 IH Ha]; intros l2 H2 Hf.
  - destruct l2 as [|b l2]; [reflexivity|].
    specialize (Hf (key b)). cbn in Hf. unfold has_key in Hf.
    rewrite Z.eqb_refl in Hf. discriminate.
  - destruct l2 as [|b l2].
    + specialize (Hf (key a)). cbn in Hf. unfold has_key in Hf.
      rewrite Z.eqb_refl in Hf. discriminate.
    + apply StronglySorted_inv in H2 as [Hs2 Hb].
      assert (Hab : key a = key b).
      { assert (Hin1 : In a (filter (has_key (key a)) (b :: l2))).
        { rewrite <- Hf. cbn. unfold has_key. rewrite Z.eqb_refl.
          now left. }
        assert (Hin2 : In b (filter (has_key (key b)) (a :: l1))).
        { rewrite Hf. cbn. unfold has_key. rewrite Z.eqb_refl.
          now left. }
        apply filter_In in Hin1 as [Hin1 _].
        apply filter_In in Hin2 as [Hin2 _].
        assert (le_key b a).
        { destruct Hin1 as [->|Hin1]; [unfold le_key; lia|].
          rewrite Forall_forall in Hb. now apply Hb. }
        assert (le_key a b).
        { destruct Hin2 as [->|Hin2]; [unfold le_key; lia|].
          rewrite Forall_forall in Ha. now apply Ha. }
        unfold le_key in *. lia. }
      assert (a = b).
      { specialize (Hf (key a)). cbn in Hf. unfold has_key in Hf.
        rewrite <- Hab, Z.eqb_refl in Hf. congruence. }
      subst b. f_equal. apply IH; [exact Hs2|].
      intros k. specialize (Hf k). cbn in Hf.
      destruct (has_key k a); congruence.
Qed.

Lemma Array_sort_characterised l l' :
  StronglySorted le_key l' ->
  (forall k, filter (has_key k) l' = filter (has_key k) l) ->
  l' = JS.Array_sort comparefn l.
Proof.
  intros Hs Hf. apply stable_sorted_unique; [exact Hs| |].
  - apply Array_sort_sorted.
  - intros k. now rewrite Hf, Array_sort_stable.
Qed.

(** Sorting the elements and reading their keys is sorting the keys. *)
Lemma sort_insert_map_key e l :
  map key (JS.sort_insert comparefn e l)
  = JS.sort_insert Z.sub (key e) (map key l).
Proof.
  induction l as [|h rest IH]; [reflexivity|].
  cbn. rewrite comparefn_key.
  destruct (key e - key h >? 0)%Z; cbn; [now rewrite IH|reflexivity].
Qed.

Lemma Array_sort_map_key l :
  map key (JS.Array_sort comparefn l) = JS.Array_sort Z.sub (map key l).
Proof.
  induction l as [|e rest IH]; [reflexivity|].
  cbn. now rewrite sort_insert_map_key, IH.
Qed.
End SortByKey.

Lemma Permutation_filter (A : Type) (p : A -> bool) (l l' : list A) :
  Permutation l l' -> Permutation (filter p l) (filter p l').
Proof.
  induction 1 as [|a l l' _ IH|a b l|l l' l'' _ IH1 _ IH2]; cbn.
  - constructor.
  - destruct (p a); [now constructor|exact IH].
  - destruct (p a), (p b); try reflexivity. apply perm_swap.
  - now transitivity (filter p l').
Qed.

(** ** [Array.prototype.map] with an index *)

Section ArrayMapFacts.
Variables A B C : Type.
Variable f : A -> nat -> B.

Lemma mapi_from_length i l :
  List.length (JS.mapi_from f i l) = List.length l.
Proof. revert i; induction l; intros; cbn; auto. Qed.

Lemma mapi_from_by_element (g : B -> C) (h : A -> C) i l :
  (forall e j, g (f e j) = h e) ->
  map g (JS.mapi_from f i l) = map h l.
Proof.
  intros Hg. revert i; induction l as [|e l IH]; intros i; cbn;
    [reflexivity|]. now rewrite Hg, IH.
Qed.

Lemma mapi_from_by_index (g : B -> C) (h : nat -> C) i l :
  (forall e j, g (f e j) = h j) ->
  map g (JS.mapi_from f i l) = map h (seq i (List.length l)).
Proof.
  intros Hg. revert i; induction l as [|e l IH]; intros i; cbn;
    [reflexivity|]. now rewrite Hg, IH.
Qed.

Lemma mapi_from_existsb (p : B -> bool) (q : A -> bool) i l :
  (forall e j, p (f e j) = q e) ->
  existsb p (JS.mapi_from f i l) = existsb q l.
Proof.
  intros Hp. revert i; induction l as [|e l IH]; intros i; cbn;
    [reflexivity|]. now rewrite Hp, IH.
Qed.

Lemma mapi_from_Forall (P : B -> Prop) i l :
  (forall e j, P (f e j)) -> Forall P (JS.mapi_from f i l).
Proof.
  intros HP. revert i; induction l as [|e l IH]; intros i; cbn;
    constructor; auto.
Qed.
End ArrayMapFacts.

(** ** Layer identifiers *)

Lemma string_of_uint_digits d : all_digits (NilEmpty.string_of_uint d) = true.
Proof. induction d; cbn; auto. Qed.

Lemma String_of_index_digits n : all_digits (JS.String_of_index n) = true.
Proof.
  unfold JS.String_of_index, NilZero.string_of_uint.
  destruct (Nat.to_uint n); try apply (string_of_uint_digits (_ _));
    reflexivity.
Qed.

Lemma String_of_index_nonempty n :
  exists c s, JS.String_of_index n = String c s /\ is_digit c = true.
Proof.
  pose proof (String_of_index_digits n) as H.
  unfold JS.String_of_index, NilZero.string_of_uint in *.
  destruct (Nat.to_uint n); cbn in *;
    eexists _, _; split; reflexivity.
Qed.

Lemma String_of_index_inj n m :
  JS.String_of_index n = JS.String_of_index m -> n = m.
Proof.
  unfold JS.String_of_index. intros H.
  assert (Hn : forall k, Nat.to_uint k <> Nil).
  { intros k. rewrite <- (Unsigned.of_to k) at 1. rewrite Unsigned.to_of.
    apply unorm_nonnil. }
  apply Unsigned.to_uint_inj.
  pose proof (NilZero.usu _ (Hn n)) as H1.
  pose proof (NilZero.usu _ (Hn m)) as H2.
  rewrite H in H1. congruence.
Qed.

(** A run of digits ends where the first dash stands. *)
Lemma digits_dash_inj a b u v :
  all_digits a = true -> all_digits b = true ->
  (a ++ String "-" u = b ++ String "-" v)%string -> a = b.
Proof.
  revert b. induction a as [|c a IH]; intros [|c' b] Ha Hb H; cbn in *.
  - reflexivity.
  - injection H as <- _. discriminate.
  - injection H as -> _. discriminate.
  - injection H as -> H.
    apply andb_true_iff in Ha as [_ Ha], Hb as [_ Hb].
    f_equal. now apply IH.
Qed.

(** ** [analyzeThumbnail]: the mapped layers *)

Section GeminiFacts.
Import GeminiService.
Variable now : nat -> Z.

(** The promise resolves only on a parsed response, with its
    normalisation; with a credential, a parsed response always resolves. *)
Lemma analyzeThumbnail_returns API_KEY remote r :
  analyzeThumbnail now API_KEY remote = JS.Return r ->
  exists rawData, remote = Parsed rawData /\ r = normalize now rawData.
Proof.
  unfold analyzeThumbnail.
  destruct API_KEY as [[|c k]|]; try discriminate.
  destruct remote; try discriminate.
  intros [= <-]. now eexists.
Qed.

Lemma analyzeThumbnail_parsed c k rawData :
  analyzeThumbnail now (Some (String c k)) (Parsed rawData)
  = JS.Return (normalize now rawData).
Proof. reflexivity. Qed.

Lemma mappedLayers_length rawData :
  List.length (mappedLayers now rawData)
  = List.length (raw_layers rawData).
Proof. apply mapi_from_length. Qed.

Lemma mappedLayers_zIndex rawData :
  map zIndex (mappedLayers now rawData)
  = map raw_zIndex (raw_layers rawData).
Proof. now apply mapi_from_by_element. Qed.

Lemma mappedLayers_confidence rawData :
  map confidence (mappedLayers now rawData)
  = map (fun l => JS.number_or (raw_confidence l) (Double.round 0.9))
        (raw_layers rawData).
Proof. now apply mapi_from_by_element. Qed.

Lemma mappedLayers_id rawData :
  map id (mappedLayers now rawData)
  = map (layer_id now) (seq 0 (List.length (raw_layers rawData))).
Proof. now apply mapi_from_by_index. Qed.

Lemma hasBackground_mapped rawData :
  hasBackground (mappedLayers now rawData) = responseHasBackground rawData.
Proof. now apply mapi_from_existsb. Qed.

Lemma layer_id_inj i j : layer_id now i = layer_id now j -> i = j.
Proof.
  unfold layer_id. intros H.
  apply String_of_index_inj.
  cbn in H. injection H as H.
  eapply digits_dash_inj; try apply String_of_index_digits. exact H.
Qed.

Lemma layer_id_not_default i :
  String.eqb (layer_id now i) "layer-bg-default" = false.
Proof.
  unfold layer_id.
  destruct (String_of_index_nonempty i) as (c & s & -> & Hc).
  cbn.
  destruct (Ascii.eqb c "b") eqn:E; [|reflexivity].
  apply Ascii.eqb_eq in E. subst c. discriminate.
Qed.

Lemma mappedLayers_not_synthesized rawData :
  Forall (fun l => isSynthesized l = false) (mappedLayers now rawData).
Proof.
  apply mapi_from_Forall. intros e j. apply layer_id_not_default.
Qed.

Lemma mappedLayers_filter_synthesized rawData :
  filter isSynthesized (mappedLayers now rawData) = [].
Proof.
  pose proof (mappedLayers_not_synthesized rawData) as H.
  induction H as [|l ls Hl _ IH]; [reflexivity|].
  cbn. now rewrite Hl.
Qed.

(** The identifiers minted by the [map] callback are pairwise distinct. *)
Lemma mappedLayers_ids_unique rawData :
  NoDup (map id (mappedLayers now rawData)).
Proof.
  rewrite mappedLayers_id.
  apply Finite.Injective_map_NoDup; [|apply seq_NoDup].
  intros i j. apply layer_id_inj.
Qed.
End GeminiFacts.

(** ** [analyzeThumbnail]: background, order, visibility *)

Section Normalised.
Import GeminiService.
Variable now : nat -> Z.

Let le_zIndex (a b : LayerData) : Prop := (zIndex a <= zIndex b)%Z.
Let at_zIndex (k : Z) (l : LayerData) : bool := (zIndex l =? k)%Z.

Lemma byZIndex_key a b : byZIndex a b = (zIndex a - zIndex b)%Z.
Proof. reflexivity. Qed.

Lemma unsortedLayers_cases rawData :
  unsortedLayers now rawData
  = if responseHasBackground rawData
    then mappedLayers now rawData
    else defaultBackground :: mappedLayers now rawData.
Proof.
  unfold unsortedLayers, ensureBackground.
  now rewrite hasBackground_mapped.
Qed.

Lemma normalize_perm rawData :
  Permutation (unsortedLayers now rawData) (layers (normalize now rawData)).
Proof. apply Array_sort_perm. Qed.

Lemma unsortedLayers_visible rawData :
  Forall (fun l => visible l = true) (unsortedLayers now rawData).
Proof.
  rewrite unsortedLayers_cases.
  assert (H : Forall (fun l => visible l = true) (mappedLayers now rawData))
    by now apply mapi_from_Forall.
  destruct (responseHasBackground rawData); [exact H|].
  constructor; [reflexivity|exact H].
Qed.

Lemma unsortedLayers_zIndex rawData :
  map zIndex (unsortedLayers now rawData)
  = (if responseHasBackground rawData then [] else [0%Z])
      ++ map raw_zIndex (raw_layers rawData).
Proof.
  rewrite unsortedLayers_cases, <- mappedLayers_zIndex with (now := now).
  now destruct (responseHasBackground rawData).
Qed.

Lemma normalize_length rawData :
  List.length (layers (normalize now rawData))
  = ((if responseHasBackground rawData then 0 else 1)
     + List.length (raw_layers rawData))%nat.
Proof.
  rewrite <- (Permutation_length (normalize_perm rawData)).
  rewrite unsortedLayers_cases, <- mappedLayers_length with (now := now).
  now destruct (responseHasBackground rawData).
Qed.

Lemma normalize_synthesized rawData :
  filter isSynthesized (layers (normalize now rawData))
  = if responseHasBackground rawData then [] else [defaultBackground].
Proof.
  pose proof (Permutation_filter isSynthesized (normalize_perm rawData))
    as H.
  rewrite unsortedLayers_cases in H.
  destruct (responseHasBackground rawData).
  - rewrite mappedLayers_filter_synthesized in H.
    now apply Permutation_nil in H.
  - cbn in H. rewrite mappedLayers_filter_synthesized in H.
    now apply Permutation_length_1_inv in H.
Qed.

Lemma normalize_background_first rawData :
  responseHasBackground rawData = false ->
  Forall (fun l => (0 <= raw_zIndex l)%Z) (raw_layers rawData) ->
  layers (normalize now rawData)
  = defaultBackground :: JS.Array_sort byZIndex (mappedLayers now rawData).
Proof.
  intros Hbg Hz. cbn [layers normalize].
  rewrite unsortedLayers_cases, Hbg.
  apply (Array_sort_least_first zIndex byZIndex byZIndex_key).
  apply Forall_map with (f := zIndex) (P := fun z => (0 <= z)%Z).
  rewrite mappedLayers_zIndex. now apply Forall_map.
Qed.

(** Every identifier in a normalised result occurs once. *)
Lemma normalize_ids_unique rawData :
  NoDup (map id (layers (normalize now rawData))).
Proof.
  eapply Permutation_NoDup;
    [apply Permutation_map, normalize_perm|].
  rewrite unsortedLayers_cases.
  destruct (responseHasBackground rawData);
    [apply mappedLayers_ids_unique|].
  cbn [map]. constructor; [|apply mappedLayers_ids_unique].
  intros Hin. apply in_map_iff in Hin as (l & Hid & Hl).
  pose proof (mappedLayers_not_synthesized now rawData) as Hall.
  rewrite Forall_forall in Hall. specialize (Hall l Hl).
  unfold isSynthesized in Hall. rewrite Hid in Hall. discriminate.
Qed.

(** C1 (amended).  A background layer is synthesized exactly when no
    layer of the response has category [BACKGROUND].  When one is
    synthesized it is the single layer [defaultBackground] (full-frame
    box (0,0,1,1), stacking order 0, confidence 0.5, colour #000000), it
    is put in front of the mapped layers before the sort, the result has
    one layer more than the response, and it is first in the final
    sequence whenever no layer of the response has a negative stacking
    order.  When the response already has a background, nothing is
    synthesized and the layer count is that of the response. *)
Theorem analyzeThumbnail_background API_KEY rawData r :
  analyzeThumbnail now API_KEY (Parsed rawData) = JS.Return r ->
  hasBackground (mappedLayers now rawData) = responseHasBackground rawData
  /\ Permutation (unsortedLayers now rawData) (layers r)
  /\ (responseHasBackground rawData = true ->
      unsortedLayers now rawData = mappedLayers now rawData
      /\ List.length (layers r) = List.length (raw_layers rawData)
      /\ filter isSynthesized (layers r) = [])
  /\ (responseHasBackground rawData = false ->
      unsortedLayers now rawData
      = defaultBackground :: mappedLayers now rawData
      /\ List.length (layers r) = S (List.length (raw_layers rawData))
      /\ filter isSynthesized (layers r) = [defaultBackground]
      /\ (Forall (fun l => (0 <= raw_zIndex l)%Z) (raw_layers rawData) ->
          hd_error (layers r) = Some defaultBackground))
  /\ (type defaultBackground = BACKGROUND
      /\ box defaultBackground
         = {| ymin := 0; xmin := 0; ymax := 1; xmax := 1 |}
      /\ zIndex defaultBackground = 0%Z
      /\ confidence defaultBackground = 0.5
      /\ dominantColor defaultBackground = "#000000"%string).
Proof.
  intros H. apply analyzeThumbnail_returns in H as (raw' & [= <-] & ->).
  split; [apply hasBackground_mapped|].
  split; [apply normalize_perm|].
  rewrite normalize_length, normalize_synthesized, unsortedLayers_cases.
  repeat split; try (rewrite H; reflexivity).
  intros Hz. now rewrite normalize_background_first.
Qed.

Lemma filter_not_synthesized ls :
  Forall (fun l => isSynthesized l = false) ls ->
  filter (fun l => negb (isSynthesized l)) ls = ls.
Proof.
  induction 1 as [|l ls Hl _ IH]; [reflexivity|].
  cbn. now rewrite Hl, IH.
Qed.

(** The layers of the result that come from the response are the mapped
    layers, sorted. *)
Lemma normalize_response_layers rawData :
  filter (fun l => negb (isSynthesized l)) (unsortedLayers now rawData)
  = mappedLayers now rawData.
Proof.
  rewrite unsortedLayers_cases.
  destruct (responseHasBackground rawData); cbn;
    apply filter_not_synthesized, mappedLayers_not_synthesized.
Qed.

(** C3.  The layers of every result are in ascending stacking order, and
    the sort is stable: for each stacking order, the layers that carry it
    come in the order they had before the sort.  A response whose
    stacking orders are [3,1,2] comes out ordered [1,2,3]; the whole
    sequence is that, behind the synthesized layer of order 0 when the
    response has no background. *)
Theorem analyzeThumbnail_sorted_stable API_KEY rawData r :
  analyzeThumbnail now API_KEY (Parsed rawData) = JS.Return r ->
  StronglySorted le_zIndex (layers r)
  /\ Permutation (unsortedLayers now rawData) (layers r)
  /\ (forall k, filter (at_zIndex k) (layers r)
                = filter (at_zIndex k) (unsortedLayers now rawData))
  /\ (map raw_zIndex (raw_layers rawData) = [3; 1; 2]%Z ->
      map zIndex (filter (fun l => negb (isSynthesized l)) (layers r))
      = [1; 2; 3]%Z
      /\ map zIndex (layers r)
         = (if responseHasBackground rawData then [] else [0%Z])
             ++ [1; 2; 3]%Z).
Proof.
  intros H. apply analyzeThumbnail_returns in H as (raw' & [= <-] & ->).
  assert (Hall : map raw_zIndex (raw_layers rawData) = [3; 1; 2]%Z ->
                 map zIndex (layers (normalize now rawData))
                 = (if responseHasBackground rawData then [] else [0%Z])
                     ++ [1; 2; 3]%Z).
  { intros Hz. cbn [layers normalize].
    rewrite (Array_sort_map_key zIndex byZIndex byZIndex_key),
      unsortedLayers_zIndex, Hz.
    now destruct (responseHasBackground rawData). }
  split; [|split; [|split]].
  - apply (Array_sort_sorted zIndex byZIndex byZIndex_key).
  - apply normalize_perm.
  - intros k. apply (Array_sort_stable zIndex byZIndex byZIndex_key).
  - intros Hz. split; [|exact (Hall Hz)].
    assert (Hs : Forall (fun l => isSynthesized l = false)
                   (JS.Array_sort byZIndex (mappedLayers now rawData))).
    { rewrite <- (Array_sort_perm byZIndex).
      apply mappedLayers_not_synthesized. }
    assert (Hm : map zIndex
                   (JS.Array_sort byZIndex (mappedLayers now rawData))
                 = [1; 2; 3]%Z).
    { now rewrite (Array_sort_map_key zIndex byZIndex byZIndex_key),
        mappedLayers_zIndex, Hz. }
    destruct (responseHasBackground rawData) eqn:Hbg.
    + cbn [layers normalize]. rewrite unsortedLayers_cases, Hbg.
      now rewrite filter_not_synthesized.
    + rewrite normalize_background_first; [|exact Hbg|].
      * cbn [filter isSynthesized id defaultBackground String.eqb].
        cbn. now rewrite filter_not_synthesized.
      * apply Forall_map with (f := raw_zIndex) (P := fun z => (0 <= z)%Z).
        rewrite Hz. repeat constructor; discriminate.
Qed.

(** C9.  Every layer of every result, the synthesized background
    included, has its visibility flag set. *)
Theorem analyzeThumbnail_all_visible API_KEY rawData r :
  analyzeThumbnail now API_KEY (Parsed rawData) = JS.Return r ->
  Forall (fun l => visible l = true) (layers r)
  /\ visible defaultBackground = true.
Proof.
  intros H. apply analyzeThumbnail_returns in H as (raw' & [= <-] & ->).
  split; [|reflexivity].
  rewrite <- normalize_perm. apply unsortedLayers_visible.
Qed.
End Normalised.

Lemma analyzeThumbnail_background_witness :
  let r := GeminiService.normalize Samples.clock Samples.noBackground in
  GeminiService.analyzeThumbnail Samples.clock Samples.API_KEY
    (GeminiService.Parsed Samples.noBackground) = JS.Return r
  /\ responseHasBackground Samples.noBackground = false
  /\ List.length (layers r) = 3%nat
  /\ filter isSynthesized (layers r) = [GeminiService.defaultBackground]
  /\ hd_error (layers r) = Some GeminiService.defaultBackground.
Proof.
  cbv zeta.
  pose proof (@analyzeThumbnail_background Samples.clock Samples.API_KEY
                Samples.noBackground _ eq_refl) as (_ & _ & _ & H & _).
  destruct (H eq_refl) as (_ & Hlen & Hsyn & Hhd).
  refine (conj eq_refl (conj eq_refl (conj Hlen (conj Hsyn _)))).
  apply Hhd. repeat constructor; discriminate.
Defined.

(** C1, as stated, fails: the response [Samples.belowZero] has no
    background, a background is synthesized, and the layer of stacking
    order -1 is sorted in front of it. *)
Lemma analyzeThumbnail_background_not_first :
  let r := GeminiService.normalize Samples.clock Samples.belowZero in
  GeminiService.analyzeThumbnail Samples.clock Samples.API_KEY
    (GeminiService.Parsed Samples.belowZero) = JS.Return r
  /\ responseHasBackground Samples.belowZero = false
  /\ In GeminiService.defaultBackground (layers r)
  /\ hd_error (layers r) <> Some GeminiService.defaultBackground.
Proof.
  cbv zeta. repeat split.
  - vm_compute. right. left. reflexivity.
  - vm_compute. discriminate.
Qed.

Lemma analyzeThumbnail_sorted_stable_witness :
  let r := GeminiService.normalize Samples.clock Samples.threeLayers in
  GeminiService.analyzeThumbnail Samples.clock Samples.API_KEY
    (GeminiService.Parsed Samples.threeLayers) = JS.Return r
  /\ map GeminiService.raw_zIndex
       (GeminiService.raw_layers Samples.threeLayers) = [3; 1; 2]%Z
  /\ StronglySorted (fun a b => (zIndex a <= zIndex b)%Z) (layers r)
  /\ map zIndex (layers r) = [1; 2; 3]%Z.
Proof.
  cbv zeta.
  pose proof (@analyzeThumbnail_sorted_stable Samples.clock Samples.API_KEY
                Samples.threeLayers _ eq_refl) as (Hs & _ & _ & He).
  exact (conj eq_refl (conj eq_refl (conj Hs (proj2 (He eq_refl))))).
Defined.

Lemma analyzeThumbnail_all_visible_witness :
  let r := GeminiService.normalize Samples.clock Samples.noBackground in
  GeminiService.analyzeThumbnail Samples.clock Samples.API_KEY
    (GeminiService.Parsed Samples.noBackground) = JS.Return r
  /\ Forall (fun l => visible l = true) (layers r).
Proof.
  cbv zeta. split; [reflexivity|].
  apply (@analyzeThumbnail_all_visible Samples.clock Samples.API_KEY
           Samples.noBackground _ eq_refl).
Defined.

(** ** [analyzeThumbnail]: the defaults *)

Section Defaults.
Import GeminiService.

(** What [||] does with a missing, a zero and a non-zero number, and with
    a missing, an empty and a non-empty string. *)
Lemma number_or_missing d : JS.number_or None d = d.
Proof. reflexivity. Qed.

Lemma number_or_nonzero q d : ~ q == 0 -> JS.number_or (Some q) d = q.
Proof.
  intros Hq. unfold JS.number_or.
  destruct (Qeq_bool q 0) eqn:E; [|reflexivity].
  now apply Qeq_bool_eq in E.
Qed.

Lemma number_or_zero q d : q == 0 -> JS.number_or (Some q) d = d.
Proof.
  intros Hq. unfold JS.number_or. now rewrite (Qeq_eq_bool _ _ Hq).
Qed.

Lemma string_or_missing d : JS.string_or None d = d.
Proof. reflexivity. Qed.

Lemma string_or_nonempty c s d :
  JS.string_or (Some (String c s)) d = String c s.
Proof. reflexivity. Qed.

Lemma string_or_empty d : JS.string_or (Some EmptyString) d = d.
Proof. reflexivity. Qed.

(** Missing fields take their defaults; present values that JavaScript
    does not count as falsy are kept. *)
Lemma normalize_defaults now rawData :
  let a := raw_analysis rawData in
  let a' := analysis (normalize now rawData) in
  map confidence (mappedLayers now rawData)
  = map (fun l => JS.number_or (raw_confidence l) (Double.round 0.9))
        (raw_layers rawData)
  /\ brightnessMap a' = JS.string_or (raw_brightnessMap a) "Balanced"
  /\ contrastLevel a' = JS.string_or (raw_contrastLevel a) "Medium"
  /\ x (visualWeightCenter a') = JS.number_or (raw_weightCenterX a) 50
  /\ y (visualWeightCenter a') = JS.number_or (raw_weightCenterY a) 50.
Proof. cbv zeta. repeat split. apply mappedLayers_confidence. Qed.
End Defaults.

(** C2, evaluated at [Samples.falsyValues].  The response carries
    confidence 0, weight-centre abscissa 0 and an empty brightness
    description; the result carries 0.9, 50 and "Balanced": the defaults
    replace values that are present. *)
Theorem normalize_overwrites_falsy_values :
  let r := GeminiService.normalize Samples.clock Samples.falsyValues in
  GeminiService.analyzeThumbnail Samples.clock Samples.API_KEY
    (GeminiService.Parsed Samples.falsyValues) = JS.Return r
  /\ map GeminiService.raw_confidence
       (GeminiService.raw_layers Samples.falsyValues) = [Some 0]
  /\ map confidence (layers r) = [Double.round 0.9]
  /\ GeminiService.raw_weightCenterX
       (GeminiService.raw_analysis Samples.falsyValues) = Some 0
  /\ x (visualWeightCenter (analysis r)) = 50
  /\ GeminiService.raw_brightnessMap
       (GeminiService.raw_analysis Samples.falsyValues) = Some EmptyString
  /\ brightnessMap (analysis r) = "Balanced"%string.
Proof. repeat split. Qed.

(** ** [cropLayer] *)

Section CropGeometry.
Import GeminiService ImageProcessing.

(** With a context, the returned string is the encoder's output for the
    canvas sized and drawn by lines 16-41. *)
Lemma cropLayer_draws document ctx imageElement b :
  getContext2d document = Some ctx ->
  cropLayer document imageElement b
  = toDataURL document imageElement (cropCanvas imageElement b).
Proof. unfold cropLayer. now intros ->. Qed.

Lemma pixels_nonneg n : 0 <= pixels n.
Proof.
  unfold pixels. change 0 with (inject_Z 0). rewrite <- Zle_Qle. lia.
Qed.

(** An image dimension is [0] or at least one pixel. *)
Lemma pixels_cases n : pixels n == 0 \/ 1 <= pixels n.
Proof.
  unfold pixels. destruct n as [|p]; [left; reflexivity|right].
  change 1 with (inject_Z 1). rewrite <- Zle_Qle. lia.
Qed.

Lemma pixels_representable n :
  (n <= 2 ^ 53)%N -> Double.round (pixels n) == pixels n.
Proof.
  intros H. unfold pixels. apply round_Z.
  rewrite Z.abs_eq by lia. change (2 ^ 53)%Z with (Z.of_N (2 ^ 53)). lia.
Qed.

(** [x - 0] and [x + 0 * 2] on a double give the double back. *)
Lemma sub_padding q : Double.sub (Double.round q) padding == Double.round q.
Proof.
  unfold Double.sub, padding.
  assert (E : Double.round q - 0 == Double.round q) by ring.
  rewrite E. apply round_idem.
Qed.

Lemma add_padding q :
  Double.add (Double.round q) (Double.mul padding 2) == Double.round q.
Proof.
  unfold Double.add, Double.mul, padding.
  assert (E : Double.round q + Double.round (0 * 2) == Double.round q).
  { rewrite (@round_zero (0 * 2)) by ring. ring. }
  rewrite E. apply round_idem.
Qed.

(** The draw call of [cropCanvas], operation by operation. *)
Lemma cropCanvas_draw imageElement b :
  let W := pixels (naturalWidth imageElement) in
  let H := pixels (naturalHeight imageElement) in
  let c := cropCanvas imageElement b in
  sx (drawn c) == Double.mul (xmin b) W
  /\ sy (drawn c) == Double.mul (ymin b) H
  /\ sWidth (drawn c) == Double.mul (Double.sub (xmax b) (xmin b)) W
  /\ sHeight (drawn c) == Double.mul (Double.sub (ymax b) (ymin b)) H
  /\ width c == sWidth (drawn c)
  /\ height c == sHeight (drawn c).
Proof.
  cbv zeta. unfold cropCanvas. cbn [sx sy sWidth sHeight width height drawn].
  split; [apply (sub_padding (xmin b * _))|].
  split; [apply (sub_padding (ymin b * _))|].
  split; [apply (add_padding (Double.sub (xmax b) (xmin b) * _))|].
  split; [apply (add_padding (Double.sub (ymax b) (ymin b) * _))|].
  split; symmetry.
  - apply (add_padding (Double.sub (xmax b) (xmin b) * _)).
  - apply (add_padding (Double.sub (ymax b) (ymin b) * _)).
Qed.

(** The rescale keeps the order of two coordinates and the ends of the
    scale. *)
Lemma div1000_le p q : p <= q -> Double.div p 1000 <= Double.div q 1000.
Proof.
  intros H. apply round_mono. apply Qmult_le_compat_r; [exact H|discriminate].
Qed.

Lemma div1000_0 : Double.div 0 1000 == 0.
Proof. reflexivity. Qed.

Lemma div1000_1000 : Double.div 1000 1000 == 1.
Proof. reflexivity. Qed.

Lemma div1000_unit q :
  0 <= q -> q <= 1000 ->
  0 <= Double.div q 1000 /\ Double.div q 1000 <= 1.
Proof.
  intros H0 H1. split.
  - rewrite <- div1000_0. now apply div1000_le.
  - rewrite <- div1000_1000. now apply div1000_le.
Qed.

Lemma div1000_err q :
  0 <= q -> q <= 1000 ->
  Qabs (Double.div q 1000 - q / 1000) <= 2 ^ (-54).
Proof.
  intros H0 H1. apply round_err_unit.
  - apply Qle_shift_div_l; [reflexivity|lra].
  - apply Qle_shift_div_r; [reflexivity|lra].
Qed.

(** The extent of a box of the unit square, as the code computes it. *)
Lemma sub_unit lo hi :
  0 <= lo -> lo <= hi -> hi <= 1 ->
  0 <= Double.sub hi lo /\ Double.sub hi lo <= 1
  /\ Qabs (Double.sub hi lo - (hi - lo)) <= 2 ^ (-54).
Proof.
  intros H0 H1 H2. unfold Double.sub. split; [|split].
  - apply round_nonneg. lra.
  - assert (E : Double.round 1 == 1) by reflexivity.
    rewrite <- E. apply round_mono. lra.
  - apply round_err_unit; lra.
Qed.

(** A factor of the unit interval times a dimension. *)
Lemma mul_pixels a n :
  0 <= a -> a <= 1 ->
  0 <= Double.mul a (pixels n)
  /\ Qabs (Double.mul a (pixels n) - a * pixels n) <= pixels n * 2 ^ (-53).
Proof.
  intros H0 H1. pose proof (pixels_nonneg n) as Hn. unfold Double.mul.
  split.
  - apply round_nonneg. now apply Qmult_le_0_compat.
  - destruct (pixels_cases n) as [Z|P].
    + rewrite Z.
      assert (E : Double.round (a * 0) - a * 0 == 0).
      { rewrite (@round_zero (a * 0)) by ring. ring. }
      rewrite E. now cbn.
    + apply round_err_scaled; [now apply Qmult_le_0_compat| |exact P].
      rewrite <- (Qmult_1_l (pixels n)) at 2.
      now apply Qmult_le_compat_r.
Qed.

Lemma Qabs_triangle_3 a b c :
  Qabs (a - c) <= Qabs (a - b) + Qabs (b - c).
Proof.
  assert (E : a - c == (a - b) + (b - c)) by ring.
  rewrite E. apply Qabs_triangle.
Qed.

(** Rescaled and converted, a coordinate of the 0-1000 scale is within
    [W]*2^-51 of the exact product. *)
Lemma scaled_origin_err q n :
  0 <= q -> q <= 1000 ->
  Qabs (Double.mul (Double.div q 1000) (pixels n) - q / 1000 * pixels n)
  <= pixels n * 2 ^ (-51).
Proof.
  intros H0 H1. pose proof (pixels_nonneg n) as Hn.
  destruct (div1000_unit H0 H1) as [U0 U1].
  destruct (@mul_pixels (Double.div q 1000) n U0 U1) as [_ E1].
  pose proof (div1000_err H0 H1) as E2.
  eapply Qle_trans; [apply (Qabs_triangle_3 _ (Double.div q 1000 * pixels n))|].
  assert (E3 : Qabs (Double.div q 1000 * pixels n - q / 1000 * pixels n)
               <= pixels n * 2 ^ (-54)).
  { assert (E : Double.div q 1000 * pixels n - q / 1000 * pixels n
                == (Double.div q 1000 - q / 1000) * pixels n) by ring.
    rewrite E, Qabs_Qmult, (Qabs_pos (pixels n)) by exact Hn.
    rewrite (Qmult_comm (pixels n)).
    now apply Qmult_le_compat_r. }
  assert (P : pixels n * 2 ^ (-53) + pixels n * 2 ^ (-54)
              <= pixels n * 2 ^ (-51)).
  { rewrite <- Qmult_plus_distr_r. rewrite !(Qmult_comm (pixels n)).
    apply Qmult_le_compat_r; [now cbn|exact Hn]. }
  lra.
Qed.

(** Rescaled and converted, the extent between two coordinates of the
    0-1000 scale is non-negative and within [W]*2^-51 of the exact
    product. *)
Lemma scaled_extent_err lo hi n :
  0 <= lo -> lo <= hi -> hi <= 1000 ->
  let e := Double.mul (Double.sub (Double.div hi 1000) (Double.div lo 1000))
                      (pixels n) in
  0 <= e /\ Qabs (e - (hi - lo) / 1000 * pixels n) <= pixels n * 2 ^ (-51).
Proof.
  intros H0 H1 H2 e. pose proof (pixels_nonneg n) as Hn.
  assert (Hlo : lo <= 1000) by lra. assert (Hhi : 0 <= hi) by lra.
  destruct (div1000_unit H0 Hlo) as [A0 A1].
  destruct (div1000_unit Hhi H2) as [B0 B1].
  pose proof (div1000_le H1) as AB.
  pose proof (div1000_err H0 Hlo) as EA.
  pose proof (div1000_err Hhi H2) as EB.
  set (A := Double.div lo 1000) in *. set (B := Double.div hi 1000) in *.
  destruct (@sub_unit A B A0 AB B1) as (D0 & D1 & ED).
  set (D := Double.sub B A) in *.
  destruct (@mul_pixels D n D0 D1) as [S0 ES].
  fold e in S0, ES. split; [exact S0|].
  eapply Qle_trans; [apply (Qabs_triangle_3 _ (D * pixels n))|].
  assert (E3 : Qabs (D * pixels n - (hi - lo) / 1000 * pixels n)
               <= pixels n * (3 * 2 ^ (-54))).
  { assert (E : D * pixels n - (hi - lo) / 1000 * pixels n
                == (D - (hi - lo) / 1000) * pixels n) by ring.
    rewrite E, Qabs_Qmult, (Qabs_pos (pixels n)) by exact Hn.
    rewrite (Qmult_comm (pixels n)).
    apply Qmult_le_compat_r; [|exact Hn].
    assert (E' : D - (hi - lo) / 1000
                 == (D - (B - A)) + ((B - hi / 1000) - (A - lo / 1000)))
      by field.
    rewrite E'.
    eapply Qle_trans; [apply Qabs_triangle|].
    assert (T : Qabs ((B - hi / 1000) - (A - lo / 1000))
                <= Qabs (B - hi / 1000) + Qabs (A - lo / 1000)).
    { assert (E2 : (B - hi / 1000) - (A - lo / 1000)
                   == (B - hi / 1000) + - (A - lo / 1000)) by ring.
      rewrite E2. eapply Qle_trans; [apply Qabs_triangle|].
      rewrite Qabs_opp. apply Qle_refl. }
    assert (K : 2 ^ (-54) + (2 ^ (-54) + 2 ^ (-54)) == 3 * 2 ^ (-54))
      by ring.
    lra. }
  assert (P : pixels n * 2 ^ (-53) + pixels n * (3 * 2 ^ (-54))
              <= pixels n * 2 ^ (-51)).
  { rewrite <- Qmult_plus_distr_r. rewrite !(Qmult_comm (pixels n)).
    apply Qmult_le_compat_r; [now cbn|exact Hn]. }
  lra.
Qed.

(** A coordinate left of the scale by a unit or more gives a rectangle
    that starts before the image. *)
Lemma scaled_origin_negative q n :
  q <= -1 -> 1 <= pixels n ->
  Double.mul (Double.div q 1000) (pixels n) < 0.
Proof.
  intros Hq Hn.
  assert (C : Double.div (-1) 1000 < 0) by reflexivity.
  assert (A : Double.div q 1000 <= Double.div (-1) 1000)
    by now apply div1000_le.
  apply Qle_lt_trans with (Double.div (-1) 1000); [|exact C].
  unfold Double.mul.
  assert (I : Double.round (Double.div (-1) 1000) == Double.div (-1) 1000)
    by apply round_idem.
  rewrite <- I. apply round_mono.
  apply Qle_trans with (Double.div q 1000); [|exact A].
  assert (N : Double.div q 1000 <= 0) by lra.
  assert (E : Double.div q 1000 == Double.div q 1000 * 1) by ring.
  rewrite E at 2.
  assert (G : 0 <= - Double.div q 1000 * (pixels n - 1)).
  { apply Qmult_le_0_compat; lra. }
  lra.
Qed.

(** C4 (amended).  For every response layer and every image of [W] by
    [H] pixels, the rescaled box gives [drawImage] the source rectangle
    x = xmin/1000*W, y = ymin/1000*H, width = (xmax/1000 - xmin/1000)*W,
    height = (ymax/1000 - ymin/1000)*H, every operation rounded to the
    nearest double, and the canvas takes that width and height.  When
    0 <= xmin <= xmax <= 1000 and 0 <= ymin <= ymax <= 1000, width and
    height are non-negative and the four numbers are within W*2^-51,
    respectively H*2^-51, of the exact xmin/1000*W, ymin/1000*H,
    (xmax-xmin)/1000*W and (ymax-ymin)/1000*H.  Nothing bounds the
    rectangle by the image: a left or top coordinate of -1 or less gives
    a rectangle that starts before the image. *)
Theorem cropLayer_source_rectangle now layer index imageElement :
  let W := pixels (naturalWidth imageElement) in
  let H := pixels (naturalHeight imageElement) in
  let b := box (mapLayer now layer index) in
  let c := cropCanvas imageElement b in
  (xmin b == Double.div (raw_xmin layer) 1000
   /\ ymin b == Double.div (raw_ymin layer) 1000
   /\ xmax b == Double.div (raw_xmax layer) 1000
   /\ ymax b == Double.div (raw_ymax layer) 1000)
  /\ (sx (drawn c) == Double.mul (xmin b) W
      /\ sy (drawn c) == Double.mul (ymin b) H
      /\ sWidth (drawn c) == Double.mul (Double.sub (xmax b) (xmin b)) W
      /\ sHeight (drawn c) == Double.mul (Double.sub (ymax b) (ymin b)) H
      /\ width c == sWidth (drawn c)
      /\ height c == sHeight (drawn c))
  /\ (0 <= raw_xmin layer /\ raw_xmin layer <= raw_xmax layer
      /\ raw_xmax layer <= 1000 ->
      0 <= sWidth (drawn c)
      /\ Qabs (sx (drawn c) - raw_xmin layer / 1000 * W) <= W * 2 ^ (-51)
      /\ Qabs (sWidth (drawn c)
               - (raw_xmax layer - raw_xmin layer) / 1000 * W)
         <= W * 2 ^ (-51))
  /\ (0 <= raw_ymin layer /\ raw_ymin layer <= raw_ymax layer
      /\ raw_ymax layer <= 1000 ->
      0 <= sHeight (drawn c)
      /\ Qabs (sy (drawn c) - raw_ymin layer / 1000 * H) <= H * 2 ^ (-51)
      /\ Qabs (sHeight (drawn c)
               - (raw_ymax layer - raw_ymin layer) / 1000 * H)
         <= H * 2 ^ (-51))
  /\ (raw_xmin layer <= -1 -> 1 <= W -> sx (drawn c) < 0)
  /\ (raw_ymin layer <= -1 -> 1 <= H -> sy (drawn c) < 0).
Proof.
  intros W H b c.
  destruct (cropCanvas_draw imageElement b)
    as (Ex & Ey & Ew & Eh & Ecw & Ech).
  fold c W H in Ex, Ey, Ew, Eh, Ecw, Ech.
  split; [repeat split; reflexivity|].
  split; [repeat split; assumption|].
  subst b. cbn [box mapLayer xmin ymin xmax ymax] in *.
  split; [|split; [|split]].
  - intros (H0 & H1 & H2). rewrite Ex, Ew.
    destruct (@scaled_extent_err _ _ (naturalWidth imageElement) H0 H1 H2)
      as [S0 S1].
    split; [exact S0|]. split; [|exact S1].
    apply scaled_origin_err; lra.
  - intros (H0 & H1 & H2). rewrite Ey, Eh.
    destruct (@scaled_extent_err _ _ (naturalHeight imageElement) H0 H1 H2)
      as [S0 S1].
    split; [exact S0|]. split; [|exact S1].
    apply scaled_origin_err; lra.
  - intros Hq HW. rewrite Ex. now apply scaled_origin_negative.
  - intros Hq HH. rewrite Ey. now apply scaled_origin_negative.
Qed.

(** The same operations for a box that leaves the frame: the source
    rectangle of a layer spanning 500..1500 on a 1280-pixel-wide image
    ends at pixel 1920. *)
Lemma cropLayer_does_not_clamp :
  let layer := {| raw_label := "Wide"; raw_type := OBJECT;
                  raw_subtype := None; raw_confidence := None;
                  raw_ymin := 0; raw_xmin := 500;
                  raw_ymax := 1000; raw_xmax := 1500;
                  raw_zIndex := 1; raw_dominantColor := "#ffffff" |} in
  let c := cropCanvas Samples.image (box (mapLayer Samples.clock layer 0)) in
  sx (drawn c) + sWidth (drawn c) == 1920
  /\ pixels (naturalWidth Samples.image) == 1280.
Proof. split; reflexivity. Qed.
(** C5.  When no 2D context can be acquired, [cropLayer] returns the
    empty string: it completes normally, whatever the image, the box
    and the encoder. *)
Theorem cropLayer_without_context document imageElement b :
  getContext2d document = None ->
  cropLayer document imageElement b = JS.Return EmptyString.
Proof. unfold cropLayer. now intros ->. Qed.
End CropGeometry.

(** C4, as stated, fails.  For the layer 200..800 on an image 1280 pixels
    wide the code's width is 768 + 2^-43 (768.0000000000001), not
    (800-200)/1000*1280 = 768. *)
Lemma cropLayer_source_rectangle_inexact :
  let layer := Samples.rawLayer PERSON None 1 in
  let c := ImageProcessing.cropCanvas Samples.image
             (box (GeminiService.mapLayer Samples.clock layer 0)) in
  (0 <= GeminiService.raw_xmin layer
   /\ GeminiService.raw_xmin layer <= GeminiService.raw_xmax layer
   /\ GeminiService.raw_xmax layer <= 1000)
  /\ ImageProcessing.pixels (ImageProcessing.naturalWidth Samples.image)
     == 1280
  /\ ImageProcessing.sWidth (ImageProcessing.drawn c) == 768 + 2 ^ (-43)
  /\ ~ ImageProcessing.sWidth (ImageProcessing.drawn c)
       == (GeminiService.raw_xmax layer - GeminiService.raw_xmin layer)
          / 1000 * 1280.
Proof.
  cbv zeta. split; [repeat split; discriminate|].
  split; [reflexivity|]. split; [reflexivity|].
  intros E. vm_compute in E. discriminate E.
Qed.

Lemma cropLayer_source_rectangle_witness :
  let layer := Samples.rawLayer PERSON None 1 in
  let c := ImageProcessing.cropCanvas Samples.image
             (box (GeminiService.mapLayer Samples.clock layer 0)) in
  let c' := ImageProcessing.cropCanvas Samples.image
              (box (GeminiService.mapLayer Samples.clock
                      MoreSamples.offFrameLayer 0)) in
  (0 <= ImageProcessing.sWidth (ImageProcessing.drawn c)
   /\ Qabs (ImageProcessing.sx (ImageProcessing.drawn c)
            - 200 / 1000 * 1280) <= 1280 * 2 ^ (-51)
   /\ Qabs (ImageProcessing.sWidth (ImageProcessing.drawn c)
            - (800 - 200) / 1000 * 1280) <= 1280 * 2 ^ (-51))
  /\ (0 <= ImageProcessing.sHeight (ImageProcessing.drawn c)
      /\ Qabs (ImageProcessing.sy (ImageProcessing.drawn c)
               - 100 / 1000 * 720) <= 720 * 2 ^ (-51)
      /\ Qabs (ImageProcessing.sHeight (ImageProcessing.drawn c)
               - (900 - 100) / 1000 * 720) <= 720 * 2 ^ (-51))
  /\ ImageProcessing.sx (ImageProcessing.drawn c') < 0
  /\ ImageProcessing.sy (ImageProcessing.drawn c') < 0.
Proof.
  cbv zeta.
  assert (Hx : 0 <= 200 /\ 200 <= 800 /\ 800 <= 1000)
    by (repeat split; discriminate).
  assert (Hy : 0 <= 100 /\ 100 <= 900 /\ 900 <= 1000)
    by (repeat split; discriminate).
  pose proof (@cropLayer_source_rectangle Samples.clock
                (Samples.rawLayer PERSON None 1) 0%nat Samples.image)
    as (_ & _ & H1 & H2 & _ & _).
  pose proof (@cropLayer_source_rectangle Samples.clock
                MoreSamples.offFrameLayer 0%nat Samples.image)
    as (_ & _ & _ & _ & H3 & H4).
  assert (Nx : -500 <= -1) by discriminate.
  assert (Ny : -250 <= -1) by discriminate.
  assert (PW : 1 <= 1280) by discriminate.
  assert (PH : 1 <= 720) by discriminate.
  exact (conj (H1 Hx) (conj (H2 Hy) (conj (H3 Nx PW) (H4 Ny PH)))).
Defined.

Lemma cropLayer_without_context_witness :
  ImageProcessing.getContext2d Samples.noContext = None
  /\ ImageProcessing.cropLayer Samples.noContext Samples.image
       {| ymin := 0.1; xmin := 0.2; ymax := 0.9; xmax := 0.8 |}
     = JS.Return EmptyString.
Proof.
  split; [reflexivity|].
  apply (@cropLayer_without_context Samples.noContext Samples.image _
           eq_refl).
Defined.

(** ** [handleToggleVisibility] *)

Section Toggle.
Import App.

Lemma toggleLayer_id id0 l : id (toggleLayer id0 l) = id l.
Proof. unfold toggleLayer. now destruct (String.eqb (id l) id0). Qed.

Lemma toggleLayer_hit l : toggleLayer (id l) l = flipped l.
Proof. unfold toggleLayer. now rewrite String.eqb_refl. Qed.

Lemma toggleLayer_miss id0 l : id l <> id0 -> toggleLayer id0 l = l.
Proof.
  intros Hne. unfold toggleLayer.
  destruct (String.eqb (id l) id0) eqn:E; [|reflexivity].
  now apply String.eqb_eq in E.
Qed.

Lemma flipped_flipped l : flipped (flipped l) = l.
Proof. destruct l. unfold flipped. cbn. now rewrite negb_involutive. Qed.

Lemma toggleLayer_twice id0 l : toggleLayer id0 (toggleLayer id0 l) = l.
Proof.
  destruct (String.eqb (id l) id0) eqn:E.
  - apply String.eqb_eq in E. subst id0.
    rewrite toggleLayer_hit.
    change (id l) with (id (flipped l)) at 1.
    rewrite toggleLayer_hit. apply flipped_flipped.
  - apply String.eqb_neq in E. now rewrite !(@toggleLayer_miss id0 l E).
Qed.

Lemma map_toggleLayer_ids id0 ls :
  map id (map (toggleLayer id0) ls) = map id ls.
Proof.
  rewrite map_map. apply map_ext. intros l. apply toggleLayer_id.
Qed.

Lemma map_toggleLayer_absent id0 ls :
  ~ In id0 (map id ls) -> map (toggleLayer id0) ls = ls.
Proof.
  induction ls as [|l ls IH]; [reflexivity|].
  cbn. intros Hn. rewrite toggleLayer_miss, IH; auto.
Qed.

(** With pairwise distinct identifiers the [map] rewrites one position. *)
Lemma map_toggleLayer_unique id0 ls :
  NoDup (map id ls) -> In id0 (map id ls) ->
  exists before l after,
    ls = before ++ l :: after
    /\ id l = id0
    /\ ~ In id0 (map id before)
    /\ ~ In id0 (map id after)
    /\ map (toggleLayer id0) ls = before ++ flipped l :: after.
Proof.
  intros Hnd Hin.
  apply in_map_iff in Hin as (l & Hid & Hin).
  apply in_split in Hin as (before & after & ->).
  rewrite map_app in Hnd. cbn [map] in Hnd.
  pose proof (NoDup_remove_2 _ _ _ Hnd) as Hout.
  rewrite Hid in Hout.
  assert (Hb : ~ In id0 (map id before))
    by (intros H; apply Hout, in_or_app; now left).
  assert (Ha : ~ In id0 (map id after))
    by (intros H; apply Hout, in_or_app; now right).
  exists before, l, after. repeat split; auto.
  rewrite map_app. cbn [map].
  rewrite !map_toggleLayer_absent by assumption.
  now rewrite <- Hid, toggleLayer_hit.
Qed.

Lemma handleToggleVisibility_result id0 app r :
  result (state app) = Some r ->
  handleToggleVisibility id0 app
  = {| state :=
         {| status := status (state app);
            imageSrc := imageSrc (state app);
            result := Some {| layers := map (toggleLayer id0) (layers r);
                              analysis := analysis r |};
            error := error (state app) |};
       activeTab := activeTab app;
       selectedLayerId := selectedLayerId app;
       originalImage := originalImage app |}.
Proof.
  intros Hr. unfold handleToggleVisibility, setState. now rewrite Hr.
Qed.

Lemma handleToggleVisibility_status id0 app :
  status (state (handleToggleVisibility id0 app)) = status (state app).
Proof.
  unfold handleToggleVisibility. now destruct (result (state app)).
Qed.

Lemma handleToggleVisibility_imageSrc id0 app :
  imageSrc (state (handleToggleVisibility id0 app)) = imageSrc (state app).
Proof.
  unfold handleToggleVisibility. now destruct (result (state app)).
Qed.

Lemma handleToggleVisibility_twice id0 app :
  handleToggleVisibility id0 (handleToggleVisibility id0 app) = app.
Proof.
  destruct app as [[st img [r|] err] tab sel orig]; [|reflexivity].
  destruct r as [ls a].
  unfold handleToggleVisibility, setState; cbn.
  rewrite map_map.
  rewrite (map_ext _ (fun l => l)) by (intros; apply toggleLayer_twice).
  now rewrite map_id.
Qed.

(** C10.  Toggling twice with the same identifier gives back the layer
    list, and with it the whole component state; toggling once with an
    identifier no layer carries changes no layer. *)
Theorem toggleLayer_involution id0 :
  (forall ls, map (toggleLayer id0) (map (toggleLayer id0) ls) = ls)
  /\ (forall ls, ~ In id0 (map id ls) -> map (toggleLayer id0) ls = ls)
  /\ (forall app,
        handleToggleVisibility id0 (handleToggleVisibility id0 app) = app).
Proof.
  repeat split.
  - intros ls. rewrite map_map.
    rewrite (map_ext _ (fun l => l)) by (intros; apply toggleLayer_twice).
    apply map_id.
  - apply map_toggleLayer_absent.
  - apply handleToggleVisibility_twice.
Qed.
End Toggle.

Lemma toggleLayer_involution_witness :
  let ls :=
    layers (GeminiService.normalize Samples.clock Samples.threeLayers) in
  map (App.toggleLayer "layer-2-1700000000002")
      (map (App.toggleLayer "layer-2-1700000000002") ls) = ls
  /\ map (App.toggleLayer "layer-bg-default") ls = ls.
Proof.
  cbv zeta.
  destruct (toggleLayer_involution "layer-2-1700000000002") as (H1 & _ & _).
  destruct (toggleLayer_involution "layer-bg-default") as (_ & H2 & _).
  split; [apply H1|apply H2].
  cbn. intros [H|[H|[H|[]]]]; discriminate.
Defined.

(** ** The session state machine *)

Section Sessions.
Import App.

Lemma replay_run events : forall env app env' app',
  run env app -> replay events env app = Some (env', app') -> run env' app'.
Proof.
  induction events as [|e rest IH]; intros env app env' app' Hr; cbn.
  - now intros [= <- <-].
  - destruct (offered env app e) eqn:E; [|discriminate].
    apply IH. now apply run_step.
Qed.

Lemma replay_reachable events env' app' :
  replay events nothingPending initial = Some (env', app') -> reachable app'.
Proof.
  intros H. exists env'. apply (replay_run events run_initial H).
Qed.

(** Layer identifiers stay pairwise distinct throughout a session. *)
Lemma reachable_ids_unique app r :
  reachable app -> result (state app) = Some r ->
  NoDup (map id (layers r)).
Proof.
  intros [env Hr]. revert r.
  induction Hr as [|env app e Hr IH Hoff]; [discriminate|].
  destruct app as [[st img res err] tab sel orig].
  destruct e; cbn in *; intros r Hs; try (now apply IH).
  - destruct (GeminiService.analyzeThumbnail now API_KEY remote) eqn:E;
      cbn in *; [|now apply IH].
    injection Hs as <-.
    apply analyzeThumbnail_returns in E as (raw & _ & ->).
    apply normalize_ids_unique.
  - destruct res as [r0|]; [|discriminate].
    unfold handleToggleVisibility, setState in Hs.
    cbn in Hs. injection Hs as <-. cbn.
    rewrite map_toggleLayer_ids. now apply IH.
Qed.

(** What "Try Again" does to each field of the state. *)
Lemma tryAgain_state app :
  state (tryAgain app)
  = {| status := IDLE; imageSrc := imageSrc (state app);
       result := result (state app); error := None |}.
Proof. reflexivity. Qed.

Lemma Status_eqb_eq a b : Status_eqb a b = true <-> a = b.
Proof. destruct a, b; cbn; split; intros H; try discriminate; reflexivity. Qed.


(** "New Project" writes the [state] cell only. *)
Lemma newProject_other_cells app :
  activeTab (newProject app) = activeTab app
  /\ selectedLayerId (newProject app) = selectedLayerId app
  /\ originalImage (newProject app) = originalImage app.
Proof. repeat split. Qed.

(** C7.  In a Success state whose result has a layer with the given
    identifier, [handleToggleVisibility] rewrites that one position of
    the layer list with the same layer, visibility negated; the layers
    before and after it, their order, the analysis and the rest of the
    component state are as they were. *)
Theorem handleToggleVisibility_flips_one app r id0 :
  reachable app ->
  status (state app) = SUCCESS ->
  result (state app) = Some r ->
  In id0 (map id (layers r)) ->
  exists before l after,
    layers r = before ++ l :: after
    /\ id l = id0
    /\ ~ In id0 (map id before)
    /\ ~ In id0 (map id after)
    /\ handleToggleVisibility id0 app
       = {| state :=
              {| status := SUCCESS;
                 imageSrc := imageSrc (state app);
                 result :=
                   Some {| layers := before ++ flipped l :: after;
                           analysis := analysis r |};
                 error := error (state app) |};
            activeTab := activeTab app;
            selectedLayerId := selectedLayerId app;
            originalImage := originalImage app |}.
Proof.
  intros Hr Hs Hres Hin.
  pose proof (reachable_ids_unique Hr Hres) as Hnd.
  destruct (@map_toggleLayer_unique id0 _ Hnd Hin)
    as (before & l & after & Hl & Hid & Hb & Ha & Hmap).
  exists before, l, after. repeat split; auto.
  now rewrite (@handleToggleVisibility_result id0 app r Hres), Hmap, Hs.
Qed.
End Sessions.

Lemma failedSession_reachable : App.reachable Samples.failedSession.
Proof.
  apply (@replay_reachable
           [App.FileChosen "image/png";
            App.ImageSelected "data:image/png;base64,iVBORw0KGgo=";
            App.AnalysisSettled Samples.clock Samples.API_KEY
              (GeminiService.Rejected "Failed to fetch")]
           {| App.reading := 0;
              App.decoding := ["data:image/png;base64,iVBORw0KGgo="%string];
              App.awaited := 0 |}).
  reflexivity.
Qed.

Lemma editingSession_reachable : App.reachable Samples.editingSession.
Proof.
  apply (@replay_reachable
           [App.FileChosen "image/png";
            App.ImageSelected "data:image/png;base64,iVBORw0KGgo=";
            App.AnalysisSettled Samples.clock Samples.API_KEY
              (GeminiService.Parsed Samples.threeLayers)]
           {| App.reading := 0;
              App.decoding := ["data:image/png;base64,iVBORw0KGgo="%string];
              App.awaited := 0 |}).
  reflexivity.
Qed.

Lemma restartedSession_reachable : App.reachable Samples.restartedSession.
Proof.
  apply (@replay_reachable
           [App.FileChosen "image/png";
            App.ImageSelected "data:image/png;base64,iVBORw0KGgo=";
            App.AnalysisSettled Samples.clock Samples.API_KEY
              (GeminiService.Parsed Samples.threeLayers);
            App.SelectLayer (Some "layer-1-1700000000001"%string);
            App.NewProject]
           {| App.reading := 0;
              App.decoding := ["data:image/png;base64,iVBORw0KGgo="%string];
              App.awaited := 0 |}).
  reflexivity.
Qed.

Lemma racedSession_reachable : App.reachable Samples.racedSession.
Proof.
  apply (@replay_reachable
           [App.FileChosen "image/png"; App.FileChosen "image/png";
            App.ImageSelected "data:image/png;base64,iVBORw0KGgo=";
            App.ImageSelected "data:image/png;base64,AAAA";
            App.AnalysisSettled Samples.clock Samples.API_KEY
              (GeminiService.Parsed Samples.threeLayers);
            App.AnalysisSettled Samples.clock Samples.API_KEY
              (GeminiService.Rejected "Failed to fetch")]
           {| App.reading := 0;
              App.decoding := ["data:image/png;base64,AAAA"%string;
                               "data:image/png;base64,iVBORw0KGgo="%string];
              App.awaited := 0 |}).
  reflexivity.
Qed.



Lemma handleToggleVisibility_flips_one_witness :
  exists before l after,
    layers (GeminiService.normalize Samples.clock Samples.threeLayers)
    = before ++ l :: after
    /\ id l = "layer-2-1700000000002"%string
    /\ result (App.state (App.handleToggleVisibility
                            "layer-2-1700000000002" Samples.editingSession))
       = Some {| layers := before ++ flipped l :: after;
                 analysis :=
                   analysis (GeminiService.normalize Samples.clock
                               Samples.threeLayers) |}.
Proof.
  assert (Hin : In "layer-2-1700000000002"%string
                  (map id (layers (GeminiService.normalize Samples.clock
                                     Samples.threeLayers))))
    by (right; left; reflexivity).
  destruct (@handleToggleVisibility_flips_one Samples.editingSession _ _
              editingSession_reachable eq_refl eq_refl Hin)
    as (before & l & after & Hl & Hid & _ & _ & Ht).
  exists before, l, after. rewrite Ht. now repeat split.
Defined.

(** ** [handleExportJSON] *)

Section ExportJSON.
Import JSON Repr.

Lemma reparse_layer l : toLayer (parse (written (ofLayer l))) = Some l.
Proof.
  destruct l as [i lab ty sub conf [a b c d] z col vis mask].
  unfold ofLayer, subtypeProperty, maskUrlProperty. cbn [id subtype maskUrl].
  destruct (String.eqb i "layer-bg-default"), ty, sub, mask; reflexivity.
Qed.

Lemma read_layer l : toLayer (ofLayer l) = Some l.
Proof.
  destruct l as [i lab ty sub conf [a b c d] z col vis mask].
  unfold ofLayer, subtypeProperty, maskUrlProperty. cbn [id subtype maskUrl].
  destruct (String.eqb i "layer-bg-default"), ty, sub, mask; reflexivity.
Qed.

Lemma reparse_layers ls :
  all (map toLayer (map parse (map written (map ofLayer ls)))) = Some ls.
Proof.
  induction ls as [|l ls IH]; [reflexivity|].
  cbn [map all]. rewrite reparse_layer, IH. reflexivity.
Qed.

Lemma read_layers ls : all (map toLayer (map ofLayer ls)) = Some ls.
Proof.
  induction ls as [|l ls IH]; [reflexivity|].
  cbn [map all]. rewrite read_layer, IH. reflexivity.
Qed.

Lemma reparse_strings l :
  all (map asString (map parse (map written (map Str l)))) = Some l.
Proof.
  induction l as [|s l IH]; [reflexivity|].
  cbn [map all]. rewrite IH. reflexivity.
Qed.

Lemma read_strings l : all (map asString (map Str l)) = Some l.
Proof.
  induction l as [|s l IH]; [reflexivity|].
  cbn [map all]. rewrite IH. reflexivity.
Qed.

Lemma reparse_analysis a :
  toAnalysis (parse (written (ofAnalysis a))) = Some a.
Proof.
  destruct a as [r b cols br co sug eye [cx cy]].
  cbn. fold written. rewrite !reparse_strings. reflexivity.
Qed.

Lemma read_analysis a : toAnalysis (ofAnalysis a) = Some a.
Proof.
  destruct a as [r b cols br co sug eye [cx cy]].
  cbn. rewrite !read_strings. reflexivity.
Qed.

Lemma toResult_object vl va :
  toResult (Object [("layers", vl); ("analysis", va)]%string)
  = bind (asArray toLayer vl) (fun ls =>
    bind (toAnalysis va) (fun a =>
    Some {| layers := ls; analysis := a |})).
Proof. reflexivity. Qed.

Lemma reparse_result r : toResult (parse (written (ofResult r))) = Some r.
Proof.
  destruct r as [ls a].
  change (parse (written (ofResult {| layers := ls; analysis := a |})))
    with (Object
            [("layers",
               Array (map parse (map written (map ofLayer ls))));
             ("analysis", parse (written (ofAnalysis a)))]%string).
  rewrite toResult_object. unfold asArray.
  now rewrite reparse_layers, reparse_analysis.
Qed.

Lemma read_result r : toResult (ofResult r) = Some r.
Proof.
  destruct r as [ls a]. unfold ofResult. cbn [layers analysis].
  rewrite toResult_object. unfold asArray.
  now rewrite read_layers, read_analysis.
Qed.

(** The document of a layer without subtype and mask lists the eight
    properties that have a value. *)
Example written_layer_members :
  match written (ofLayer GeminiService.defaultBackground) with
  | DObject members =>
      map fst members
      = ["id"; "label"; "type"; "confidence"; "box"; "zIndex";
         "dominantColor"; "visible"]%string
  | _ => False
  end.
Proof. reflexivity. Qed.

Lemma defined_layer l : parse (written (ofLayer l)) = defined (ofLayer l).
Proof.
  destruct l as [i lab ty sub conf [a b c d] z col vis mask].
  unfold ofLayer, subtypeProperty, maskUrlProperty. cbn [id subtype maskUrl].
  destruct (String.eqb i "layer-bg-default"), sub, mask; reflexivity.
Qed.

Lemma defined_layers ls :
  map parse (map written (map ofLayer ls)) = map defined (map ofLayer ls).
Proof.
  induction ls as [|l ls IH]; [reflexivity|].
  cbn [map]. now rewrite defined_layer, IH.
Qed.

Lemma defined_strings l :
  map parse (map written (map Str l)) = map defined (map Str l).
Proof. induction l as [|s l IH]; [reflexivity|]. cbn [map]. now rewrite IH. Qed.

Lemma defined_result r : parse (written (ofResult r)) = defined (ofResult r).
Proof.
  destruct r as [ls [r b cols br co sug eye [cx cy]]].
  cbn. fold written. now rewrite defined_layers, !defined_strings.
Qed.

End ExportJSON.



(* ================================================================== *)
(** * Further properties of the service *)

Section ServiceOutcomes.
Import GeminiService.
Variable now : nat -> Z.

(** X2.  The layer identifiers of a resolved result are pairwise
    distinct. *)
Theorem analyzeThumbnail_ids_unique API_KEY remote r :
  analyzeThumbnail now API_KEY remote = JS.Return r ->
  NoDup (map id (layers r))
  /\ List.length (map id (layers r)) = List.length (layers r).
Proof.
  intros H. apply analyzeThumbnail_returns in H as (raw & _ & ->).
  split; [apply normalize_ids_unique|apply length_map].
Qed.

Lemma mapLayer_unitBox l i :
  rawBoxInRange l -> unitBox (box (mapLayer now l i)).
Proof.
  intros (H1 & H2 & H3 & H4 & H5 & H6).
  unfold unitBox; cbn [box mapLayer xmin xmax ymin ymax].
  destruct (@div1000_unit (raw_xmin l)) as [A0 _]; [lra|lra|].
  destruct (@div1000_unit (raw_xmax l)) as [_ A1]; [lra|lra|].
  destruct (@div1000_unit (raw_ymin l)) as [B0 _]; [lra|lra|].
  destruct (@div1000_unit (raw_ymax l)) as [_ B1]; [lra|lra|].
  pose proof (div1000_le H2) as A. pose proof (div1000_le H5) as B.
  repeat split; assumption.
Qed.

Lemma mapi_from_Forall_in (A B : Type) (f : A -> nat -> B)
      (P : A -> Prop) (R : B -> Prop) i l :
  (forall e j, P e -> R (f e j)) ->
  Forall P l -> Forall R (JS.mapi_from f i l).
Proof.
  intros HPR H. revert i.
  induction H as [|e l He _ IH]; intros i; cbn; constructor; auto.
Qed.

(** X3.  When every layer of the response has its corners in order
    within 0..1000, every layer of the result, the synthesized background
    included, has its box inside the unit square with its corners in
    order. *)
Theorem analyzeThumbnail_boxes_unit API_KEY rawData r :
  analyzeThumbnail now API_KEY (Parsed rawData) = JS.Return r ->
  Forall rawBoxInRange (raw_layers rawData) ->
  Forall (fun l => unitBox (box l)) (layers r).
Proof.
  intros H Hraw.
  apply analyzeThumbnail_returns in H as (raw' & [= <-] & ->).
  rewrite <- normalize_perm, unsortedLayers_cases.
  assert (Hm : Forall (fun l => unitBox (box l)) (mappedLayers now rawData)).
  { apply mapi_from_Forall_in with (P := rawBoxInRange); [|exact Hraw].
    intros e j. apply mapLayer_unitBox. }
  destruct (responseHasBackground rawData); [exact Hm|].
  constructor; [|exact Hm].
  unfold unitBox; cbn. repeat split; discriminate.
Qed.

Lemma normalize_has_background raw :
  hasBackground (layers (normalize now raw)) = true.
Proof.
  assert (Hu : hasBackground (unsortedLayers now raw) = true).
  { unfold unsortedLayers, ensureBackground.
    destruct (hasBackground (mappedLayers now raw)) eqn:E;
      [exact E|reflexivity]. }
  unfold hasBackground, JS.Array_some in *.
  apply existsb_exists in Hu as (l & Hin & Hl).
  apply existsb_exists. exists l. split; [|exact Hl].
  eapply Permutation_in; [apply normalize_perm|exact Hin].
Qed.

(** X4.  Every resolved result has a layer of category [BACKGROUND]; in
    particular its layer list is never empty, even for a response without
    layers. *)
Theorem analyzeThumbnail_has_background API_KEY remote r :
  analyzeThumbnail now API_KEY remote = JS.Return r ->
  hasBackground (layers r) = true /\ layers r <> [].
Proof.
  intros H. apply analyzeThumbnail_returns in H as (raw & _ & ->).
  pose proof (normalize_has_background raw) as Hb.
  split; [exact Hb|]. intros E. rewrite E in Hb. discriminate.
Qed.

Lemma sort_insert_filter_out (A : Type) (cmp : A -> A -> Z)
      (p : A -> bool) e l :
  p e = false -> filter p (JS.sort_insert cmp e l) = filter p l.
Proof.
  intros He. induction l as [|h rest IH]; cbn; [now rewrite He|].
  destruct (cmp e h >? 0)%Z; cbn; [now rewrite IH|now rewrite He].
Qed.

(** X5.  Without the synthesized layer, a result is the mapped response
    sorted: no layer of the response is lost or repeated, and each keeps
    its label, category, subtype, stacking order and colour. *)
Theorem analyzeThumbnail_keeps_response_layers API_KEY rawData r :
  analyzeThumbnail now API_KEY (Parsed rawData) = JS.Return r ->
  filter (fun l => negb (isSynthesized l)) (layers r)
  = JS.Array_sort byZIndex (mappedLayers now rawData)
  /\ Permutation
       (map (fun l => (label l, type l, subtype l, zIndex l,
                       dominantColor l))
            (filter (fun l => negb (isSynthesized l)) (layers r)))
       (map (fun l => (raw_label l, raw_type l, raw_subtype l,
                       raw_zIndex l, raw_dominantColor l))
            (raw_layers rawData)).
Proof.
  intros H. apply analyzeThumbnail_returns in H as (raw' & [= <-] & ->).
  assert (Hs : Forall (fun l => isSynthesized l = false)
                 (JS.Array_sort byZIndex (mappedLayers now rawData))).
  { rewrite <- (Array_sort_perm byZIndex).
    apply mappedLayers_not_synthesized. }
  assert (E : filter (fun l => negb (isSynthesized l))
                (layers (normalize now rawData))
              = JS.Array_sort byZIndex (mappedLayers now rawData)).
  { cbn [layers normalize]. rewrite unsortedLayers_cases.
    destruct (responseHasBackground rawData).
    - now apply filter_not_synthesized.
    - cbn [JS.Array_sort]. rewrite sort_insert_filter_out by reflexivity.
      now apply filter_not_synthesized. }
  split; [exact E|]. rewrite E.
  rewrite <- (Array_sort_perm byZIndex).
  unfold mappedLayers, JS.Array_map.
  erewrite mapi_from_by_element; [reflexivity|]. reflexivity.
Qed.

(** X6.  Sorting the layers of a resolved result by stacking order again
    returns them unchanged. *)
Theorem analyzeThumbnail_sort_idempotent API_KEY remote r :
  analyzeThumbnail now API_KEY remote = JS.Return r ->
  JS.Array_sort byZIndex (layers r) = layers r.
Proof.
  intros H. apply analyzeThumbnail_returns in H as (raw & _ & ->).
  symmetry.
  apply (Array_sort_characterised zIndex byZIndex byZIndex_key);
    [|reflexivity].
  apply (Array_sort_sorted zIndex byZIndex byZIndex_key).
Qed.
End ServiceOutcomes.

Lemma analyzeThumbnail_ids_unique_witness :
  NoDup (map id (layers MoreSamples.result)).
Proof.
  apply (@analyzeThumbnail_ids_unique Samples.clock Samples.API_KEY
           (GeminiService.Parsed Samples.threeLayers) _ eq_refl).
Defined.

Lemma threeLayers_in_range :
  Forall rawBoxInRange (GeminiService.raw_layers Samples.threeLayers).
Proof. repeat constructor; discriminate. Qed.

Lemma analyzeThumbnail_boxes_unit_witness :
  Forall rawBoxInRange (GeminiService.raw_layers Samples.threeLayers)
  /\ Forall (fun l => unitBox (box l)) (layers MoreSamples.result).
Proof.
  split; [exact threeLayers_in_range|].
  apply (@analyzeThumbnail_boxes_unit Samples.clock Samples.API_KEY
           Samples.threeLayers _ eq_refl threeLayers_in_range).
Defined.

Lemma analyzeThumbnail_has_background_witness :
  GeminiService.hasBackground
    (layers (GeminiService.normalize Samples.clock (Samples.response [])))
  = true.
Proof.
  apply (@analyzeThumbnail_has_background Samples.clock Samples.API_KEY
           (GeminiService.Parsed (Samples.response [])) _ eq_refl).
Defined.

Lemma analyzeThumbnail_keeps_response_layers_witness :
  filter (fun l => negb (isSynthesized l))
         (layers (GeminiService.normalize Samples.clock Samples.noBackground))
  = JS.Array_sort GeminiService.byZIndex
      (GeminiService.mappedLayers Samples.clock Samples.noBackground).
Proof.
  apply (@analyzeThumbnail_keeps_response_layers Samples.clock
           Samples.API_KEY Samples.noBackground _ eq_refl).
Defined.

Lemma analyzeThumbnail_sort_idempotent_witness :
  JS.Array_sort GeminiService.byZIndex (layers MoreSamples.result)
  = layers MoreSamples.result.
Proof.
  apply (@analyzeThumbnail_sort_idempotent Samples.clock Samples.API_KEY
           (GeminiService.Parsed Samples.threeLayers) _ eq_refl).
Defined.

(* ================================================================== *)
(** * Further properties of the session *)

Section SessionInvariants.
Import App.

Lemma string_or_never_empty m d :
  d <> EmptyString -> JS.string_or (Some m) d <> EmptyString.
Proof. intros Hd. destruct m; cbn; [exact Hd|discriminate]. Qed.

Lemma handleToggleVisibility_error id0 app :
  error (state (handleToggleVisibility id0 app)) = error (state app).
Proof.
  unfold handleToggleVisibility. now destruct (result (state app)).
Qed.

(** X7.  In every Error state a session reaches an error message is
    held, and an error message held in any state is never empty: an
    empty message of the failure is replaced by "Failed to analyze
    image". *)
Theorem reachable_error_message app :
  reachable app ->
  (status (state app) = ERROR ->
   exists message, error (state app) = Some message
                   /\ message <> EmptyString)
  /\ (forall message,
        error (state app) = Some message -> message <> EmptyString).
Proof.
  intros [env Hr].
  assert (I : (status (state app) = ERROR -> error (state app) <> None)
              /\ (forall m, error (state app) = Some m ->
                            m <> EmptyString)).
  { induction Hr as [|env app e Hr [IH1 IH2] Hoff];
      [split; discriminate|].
    destruct app as [[st img res err] tab sel orig].
    destruct e; cbn in *;
      try rewrite handleToggleVisibility_status;
      try rewrite handleToggleVisibility_error;
      try match goal with
          | |- context [GeminiService.analyzeThumbnail ?n ?k ?r] =>
              destruct (GeminiService.analyzeThumbnail n k r); cbn
          end;
      (split; [intros He|intros m Hm]);
      try discriminate; try (now apply IH1); try (now apply (IH2 m)).
    injection Hm as <-. apply string_or_never_empty. discriminate. }
  destruct I as [I1 I2]. split; [|exact I2].
  intros He. destruct (error (state app)) as [m|] eqn:E;
    [|now destruct (I1 He)].
  exists m. split; [reflexivity|now apply I2].
Qed.

Lemma reachable_success_result app :
  reachable app -> status (state app) = SUCCESS ->
  exists r, result (state app) = Some r.
Proof.
  intros [env Hr].
  induction Hr as [|env app e Hr IH Hoff]; [discriminate|].
  destruct app as [[st img res err] tab sel orig].
  destruct e; cbn in *; try discriminate; try (intros Hs; now apply IH).
  - destruct (GeminiService.analyzeThumbnail now API_KEY remote); cbn;
      [intros _; now eexists|discriminate].
  - rewrite handleToggleVisibility_status. cbn. intros Hs.
    destruct (IH Hs) as [r0 E]. cbn in E. subst res.
    unfold handleToggleVisibility, setState; cbn. now eexists.
Qed.

(** X8.  In every Success state a session reaches a result is held, so
    "Export JSON" saves a document named thumbnail_data.json; the editor
    is rendered there exactly when the image source held is a non-empty
    string. *)
Theorem reachable_success_editor app :
  reachable app -> status (state app) = SUCCESS ->
  exists r,
    result (state app) = Some r
    /\ (exists d, handleExportJSON app
                  = Some {| download := "thumbnail_data.json";
                            document := d |})
    /\ (editorRendered app = true
        <-> exists c s, imageSrc (state app) = Some (String c s)).
Proof.
  intros Hr Hs.
  destruct (reachable_success_result Hr Hs) as [r Hres].
  exists r. split; [exact Hres|]. split.
  - unfold handleExportJSON. rewrite Hres. cbn. now eexists.
  - unfold editorRendered. rewrite Hs, Hres. cbn.
    destruct (imageSrc (state app)) as [[|c s]|]; split; intros H;
      try discriminate H; try reflexivity;
      try (destruct H as (c' & s' & E); discriminate E).
    now exists c, s.
Qed.

Lemma map_toggleLayer_zIndex id0 ls :
  map zIndex (map (toggleLayer id0) ls) = map zIndex ls.
Proof.
  rewrite map_map. apply map_ext. intros l.
  unfold toggleLayer. now destruct (String.eqb (id l) id0).
Qed.

Lemma map_toggleLayer_type id0 ls :
  map type (map (toggleLayer id0) ls) = map type ls.
Proof.
  rewrite map_map. apply map_ext. intros l.
  unfold toggleLayer. now destruct (String.eqb (id l) id0).
Qed.

Lemma sorted_by_keys (A : Type) (key : A -> Z) (l : list A) :
  StronglySorted (fun a b => (key a <= key b)%Z) l
  <-> StronglySorted Z.le (map key l).
Proof.
  induction l as [|a l IH]; cbn.
  - split; constructor.
  - split; intros H; apply StronglySorted_inv in H as [Hs Ha];
      constructor; try (now apply IH).
    + rewrite Forall_map. exact Ha.
    + rewrite Forall_map in Ha. exact Ha.
Qed.

Lemma hasBackground_by_types ls :
  GeminiService.hasBackground ls
  = existsb (fun t => ElementType_eqb t BACKGROUND) (map type ls).
Proof.
  unfold GeminiService.hasBackground, JS.Array_some,
    GeminiService.isBackground.
  induction ls as [|l ls IH]; cbn; [reflexivity|now rewrite IH].
Qed.

(** X9.  Whatever result a session holds, after any number of visibility
    toggles, its layers are in ascending stacking order and one of them
    is a background. *)
Theorem reachable_layers_sorted app r :
  reachable app -> result (state app) = Some r ->
  StronglySorted (fun a b => (zIndex a <= zIndex b)%Z) (layers r)
  /\ GeminiService.hasBackground (layers r) = true.
Proof.
  intros [env Hr]. revert r.
  induction Hr as [|env app e Hr IH Hoff]; [discriminate|].
  destruct app as [[st img res err] tab sel orig].
  destruct e; cbn in *; intros r Hs; try (now apply IH).
  - destruct (GeminiService.analyzeThumbnail now API_KEY remote) eqn:E;
      cbn in *; [|now apply IH].
    injection Hs as <-.
    apply analyzeThumbnail_returns in E as (raw & _ & ->). split.
    + apply (Array_sort_sorted zIndex GeminiService.byZIndex byZIndex_key).
    + apply normalize_has_background.
  - destruct res as [r0|]; [|discriminate].
    unfold handleToggleVisibility, setState in Hs.
    cbn in Hs. injection Hs as <-. cbn.
    destruct (IH r0 eq_refl) as [Hsorted Hbg]. split.
    + apply (proj2 (sorted_by_keys zIndex _)).
      rewrite map_toggleLayer_zIndex.
      now apply (proj1 (sorted_by_keys zIndex _)).
    + rewrite hasBackground_by_types, map_toggleLayer_type,
        <- hasBackground_by_types. exact Hbg.
Qed.

(** X10.  Visibility toggles commute: toggling two identifiers in either
    order gives the same layers and the same component state. *)
Theorem toggleLayer_commute a b :
  (forall l,
     toggleLayer a (toggleLayer b l) = toggleLayer b (toggleLayer a l))
  /\ (forall app,
        handleToggleVisibility a (handleToggleVisibility b app)
        = handleToggleVisibility b (handleToggleVisibility a app)).
Proof.
  assert (H : forall l,
             toggleLayer a (toggleLayer b l)
             = toggleLayer b (toggleLayer a l)).
  { intros l. unfold toggleLayer.
    destruct (String.eqb (id l) a) eqn:Ea, (String.eqb (id l) b) eqn:Eb;
      cbn; rewrite ?Ea, ?Eb; reflexivity. }
  split; [exact H|].
  intros [[st img [r|] err] tab sel orig]; [|reflexivity].
  unfold handleToggleVisibility, setState; cbn.
  rewrite !map_map. do 4 f_equal. apply map_ext. exact H.
Qed.

(** X11.  Toggling the visibility of any layer leaves the selection on
    the same layer: the layer found for the selected identifier is the
    one found before, toggled like the rest. *)
Theorem selectedLayer_after_toggle id0 ls selectedLayerId :
  LayerCanvas.selectedLayer (map (toggleLayer id0) ls) selectedLayerId
  = option_map (toggleLayer id0)
      (LayerCanvas.selectedLayer ls selectedLayerId).
Proof.
  unfold LayerCanvas.selectedLayer.
  destruct selectedLayerId as [i|]; [|reflexivity].
  induction ls as [|l ls IH]; [reflexivity|].
  cbn. rewrite toggleLayer_id.
  now destruct (String.eqb (id l) i).
Qed.
End SessionInvariants.

Lemma unconfiguredSession_reachable :
  App.reachable MoreSamples.unconfiguredSession.
Proof.
  apply (@replay_reachable
           [App.FileChosen "image/png";
            App.ImageSelected "data:image/png;base64,iVBORw0KGgo=";
            App.AnalysisSettled Samples.clock None
              (GeminiService.Parsed Samples.threeLayers)]
           {| App.reading := 0;
              App.decoding := ["data:image/png;base64,iVBORw0KGgo="%string];
              App.awaited := 0 |}).
  reflexivity.
Qed.

Lemma reachable_error_message_witness :
  status (App.state MoreSamples.unconfiguredSession) = ERROR
  /\ exists message,
       error (App.state MoreSamples.unconfiguredSession) = Some message
       /\ message <> EmptyString.
Proof.
  split; [reflexivity|].
  apply (proj1 (reachable_error_message unconfiguredSession_reachable)
           eq_refl).
Defined.

Lemma reachable_success_editor_witness :
  exists r, result (App.state Samples.editingSession) = Some r
            /\ App.editorRendered Samples.editingSession = true.
Proof.
  destruct (reachable_success_editor editingSession_reachable eq_refl)
    as (r & Hr & _ & He).
  exists r. split; [exact Hr|].
  apply (proj2 He). now eexists _, _.
Defined.

Lemma toggledSession_reachable :
  App.reachable
    (App.handle (App.ToggleVisibility "layer-2-1700000000002")
                Samples.editingSession).
Proof.
  apply (@replay_reachable
           [App.FileChosen "image/png";
            App.ImageSelected "data:image/png;base64,iVBORw0KGgo=";
            App.AnalysisSettled Samples.clock Samples.API_KEY
              (GeminiService.Parsed Samples.threeLayers);
            App.ToggleVisibility "layer-2-1700000000002"]
           {| App.reading := 0;
              App.decoding := ["data:image/png;base64,iVBORw0KGgo="%string];
              App.awaited := 0 |}).
  reflexivity.
Qed.

Lemma reachable_layers_sorted_witness :
  StronglySorted (fun a b => (zIndex a <= zIndex b)%Z)
    (map (App.toggleLayer "layer-2-1700000000002")
         (layers MoreSamples.result)).
Proof.
  apply (reachable_layers_sorted toggledSession_reachable eq_refl).
Defined.

(** ** The payload sent to the service *)

Section Payload.
Import Strings.

Lemma split_nonempty sep s : split sep s <> [].
Proof.
  destruct s as [|c s]; cbn; [discriminate|].
  destruct (Ascii.eqb c sep); [discriminate|].
  destruct (split sep s); discriminate.
Qed.

Lemma split_without sep s : contains sep s = false -> split sep s = [s].
Proof.
  induction s as [|c s IH]; cbn; [reflexivity|].
  destruct (Ascii.eqb c sep); [discriminate|].
  cbn. intros H. now rewrite IH.
Qed.

Lemma split_append sep h t :
  contains sep h = false ->
  split sep (h ++ String sep t) = h :: split sep t.
Proof.
  induction h as [|c h IH]; cbn.
  - now rewrite Ascii.eqb_refl.
  - destruct (Ascii.eqb c sep); [discriminate|].
    cbn. intros H. now rewrite IH.
Qed.

(** X12.  For an address made of a header, a comma and a payload, neither
    containing a comma, the payload handed to the service is the text
    after the comma. *)
Theorem base64Data_payload header payload :
  contains "," header = false ->
  contains "," payload = false ->
  base64Data (header ++ String "," payload) = Some payload.
Proof.
  intros Hh Hp. unfold base64Data.
  now rewrite split_append, split_without.
Qed.

(** X13.  The payload is [undefined] exactly when the address contains
    no comma. *)
Theorem base64Data_undefined base64 :
  base64Data base64 = None <-> contains "," base64 = false.
Proof.
  unfold base64Data. induction base64 as [|c s IH]; cbn; [easy|].
  pose proof (@split_nonempty "," s) as Hn.
  destruct (Ascii.eqb c ",") eqn:E; cbn.
  - destruct (split "," s); [contradiction|]. cbn. easy.
  - destruct (split "," s) as [|p ps]; [contradiction|]. cbn in *. exact IH.
Qed.
End Payload.

Lemma base64Data_payload_witness :
  base64Data "data:image/png;base64,iVBORw0KGgo=" = Some "iVBORw0KGgo="%string.
Proof.
  apply (@base64Data_payload "data:image/png;base64" "iVBORw0KGgo=");
    reflexivity.
Defined.

Lemma base64Data_undefined_witness :
  base64Data "iVBORw0KGgo=" = None.
Proof.
  apply (proj2 (base64Data_undefined "iVBORw0KGgo=")). reflexivity.
Defined.

(* ================================================================== *)
(** * Further properties of the crop and of the canvas views *)

Section CropFrame.
Import ImageProcessing.

(** A factor of the unit interval times a double [B] gives a number
    between 0 and [B]. *)
Lemma mul_unit a B :
  0 <= a -> a <= 1 -> 0 <= B -> Double.round B == B ->
  0 <= Double.mul a B /\ Double.mul a B <= B.
Proof.
  intros H0 H1 HB RB. unfold Double.mul. split.
  - apply round_nonneg. now apply Qmult_le_0_compat.
  - rewrite <- RB at 2. apply round_mono.
    rewrite <- (Qmult_1_l B) at 2. now apply Qmult_le_compat_r.
Qed.

Lemma sub_unit_box lo hi :
  0 <= lo -> lo <= hi -> hi <= 1 ->
  0 <= Double.sub hi lo /\ Double.sub hi lo <= 1.
Proof.
  intros H0 H1 H2. destruct (@sub_unit lo hi H0 H1 H2) as (A & B & _).
  now split.
Qed.

(** X14.  For a box inside the unit square and an image whose dimensions
    a double holds exactly, the rectangle [cropLayer] reads starts inside
    the image and is no larger than it: origin and size are non-negative
    and at most the natural width and height; it is copied to the origin
    of the canvas at the same size. *)
Theorem cropCanvas_inside_image imageElement b :
  unitBox b ->
  (naturalWidth imageElement <= 2 ^ 53)%N ->
  (naturalHeight imageElement <= 2 ^ 53)%N ->
  let c := cropCanvas imageElement b in
  let W := pixels (naturalWidth imageElement) in
  let H := pixels (naturalHeight imageElement) in
  (0 <= sx (drawn c) /\ sx (drawn c) <= W)
  /\ (0 <= sy (drawn c) /\ sy (drawn c) <= H)
  /\ (0 <= sWidth (drawn c) /\ sWidth (drawn c) <= W)
  /\ (0 <= sHeight (drawn c) /\ sHeight (drawn c) <= H)
  /\ dx (drawn c) == 0 /\ dy (drawn c) == 0
  /\ dWidth (drawn c) == sWidth (drawn c)
  /\ dHeight (drawn c) == sHeight (drawn c).
Proof.
  intros (H1 & H2 & H3 & H4 & H5 & H6) NW NH c W H.
  destruct (cropCanvas_draw imageElement b)
    as (Ex & Ey & Ew & Eh & Ecw & Ech).
  fold c W H in Ex, Ey, Ew, Eh, Ecw, Ech.
  pose proof (pixels_nonneg (naturalWidth imageElement)) as HW.
  pose proof (pixels_nonneg (naturalHeight imageElement)) as HH.
  pose proof (pixels_representable NW) as RW.
  pose proof (pixels_representable NH) as RH.
  fold W in HW, RW. fold H in HH, RH.
  destruct (@sub_unit_box (xmin b) (xmax b)) as [DX0 DX1]; [lra|lra|lra|].
  destruct (@sub_unit_box (ymin b) (ymax b)) as [DY0 DY1]; [lra|lra|lra|].
  rewrite Ex, Ey, Ew, Eh.
  split; [apply mul_unit; lra|].
  split; [apply mul_unit; lra|].
  split; [apply mul_unit; lra|].
  split; [apply mul_unit; lra|].
  split; [reflexivity|]. split; [reflexivity|].
  split; [rewrite <- Ew; exact Ecw|rewrite <- Eh; exact Ech].
Qed.

(** Doubles are whole numbers of units 2^-1074, so two different ones
    are a unit apart at least. *)
Lemma representable_gap p q :
  Double.representable p -> Double.representable q -> p < q ->
  p - q <= - 2 ^ Double.emin.
Proof.
  unfold Double.representable. intros Rp Rq Hpq.
  destruct (round_grid p) as [zp Ep]. destruct (round_grid q) as [zq Eq].
  rewrite Rp in Ep. rewrite Rq in Eq.
  pose proof (pow2_pos Double.emin) as P.
  assert (Lt : (zp < zq)%Z).
  { rewrite Zlt_Qlt.
    apply Qmult_lt_r with (2 ^ Double.emin); [exact P|]. lra. }
  assert (Le : inject_Z zp + 1 <= inject_Z zq).
  { rewrite <- inject_Z_succ, <- Zle_Qle. lia. }
  rewrite Ep, Eq.
  assert (G : 0 <= (inject_Z zq - (inject_Z zp + 1)) * 2 ^ Double.emin).
  { apply Qmult_le_0_compat; lra. }
  lra.
Qed.

Lemma round_negative q : q <= - 2 ^ Double.emin -> Double.round q < 0.
Proof.
  intros H. pose proof (pow2_pos Double.emin) as P.
  apply Qle_lt_trans with (- 2 ^ Double.emin); [|lra].
  assert (R : Double.round (- 2 ^ Double.emin) == - 2 ^ Double.emin).
  { assert (E : - 2 ^ Double.emin == inject_Z (-1) * 2 ^ Double.emin)
      by ring.
    rewrite E. apply round_representable; [discriminate|apply Z.le_refl]. }
  rewrite <- R. now apply round_mono.
Qed.

(** X15.  A box of doubles whose right edge lies left of its left edge
    is not rejected: on an image of positive width the canvas is given a
    negative width and the draw call a negative source width. *)
Theorem cropCanvas_inverted_box imageElement b :
  (0 < naturalWidth imageElement)%N ->
  Double.representable (xmin b) -> Double.representable (xmax b) ->
  xmax b < xmin b ->
  width (cropCanvas imageElement b) < 0
  /\ sWidth (drawn (cropCanvas imageElement b)) < 0.
Proof.
  intros HW Rmin Rmax Hb.
  destruct (cropCanvas_draw imageElement b) as (_ & _ & Ew & _ & Ecw & _).
  rewrite Ecw, Ew.
  assert (HW' : 1 <= pixels (naturalWidth imageElement)).
  { unfold pixels. change 1 with (inject_Z 1). rewrite <- Zle_Qle. lia. }
  pose proof (pow2_pos Double.emin) as P.
  pose proof (representable_gap Rmax Rmin Hb) as G.
  assert (D : Double.sub (xmax b) (xmin b) <= - 2 ^ Double.emin).
  { assert (R : Double.round (- 2 ^ Double.emin) == - 2 ^ Double.emin).
    { assert (E : - 2 ^ Double.emin == inject_Z (-1) * 2 ^ Double.emin)
        by ring.
      rewrite E. apply round_representable; [discriminate|apply Z.le_refl]. }
    rewrite <- R. unfold Double.sub. now apply round_mono. }
  assert (N : Double.mul (Double.sub (xmax b) (xmin b))
                         (pixels (naturalWidth imageElement)) < 0).
  { unfold Double.mul. apply round_negative.
    set (d := Double.sub (xmax b) (xmin b)) in *.
    set (w := pixels (naturalWidth imageElement)) in *.
    assert (K : 0 <= - d * (w - 1)) by (apply Qmult_le_0_compat; lra).
    lra. }
  split; exact N.
Qed.
End CropFrame.

Section CanvasViews.
Import ImageProcessing LayerCanvas.

(** X16.  Once the image has loaded with a positive width, the isolated
    view draws the selected layer with the canvas size and the draw call
    that [cropLayer] uses for the download of the same layer. *)
Theorem drawSelected_matches_cropLayer ctx l img :
  (0 < naturalWidth img)%N ->
  exists c,
    drawSelected (Some ctx) (Some l) (Some img) (handleImageLoad img)
    = Some c
    /\ sameCanvas c (cropCanvas img (box l)).
Proof.
  intros HW. unfold drawSelected, handleImageLoad.
  cbn [dimWidth dimHeight].
  apply N.ltb_lt in HW. rewrite HW.
  eexists. split; [reflexivity|].
  destruct (cropCanvas_draw img (box l)) as (Ex & Ey & Ew & Eh & Ecw & Ech).
  unfold sameCanvas. cbn [width height drawn sx sy sWidth sHeight dx dy dWidth dHeight].
  rewrite Ex, Ey, Ew, Eh.
  repeat split; reflexivity.
Qed.

(** X17.  In the full view there is one overlay per layer, in order; a
    hidden layer has none shown, and for a visible layer whose box lies
    inside the unit square every offset and every size is a percentage
    between 0 and 100. *)
Theorem overlays_in_frame layers :
  Forall (fun l => unitBox (box l)) layers ->
  List.length (overlays layers) = List.length layers
  /\ Forall2 (fun l o =>
       match o with
       | None => visible l = false
       | Some s =>
           visible l = true
           /\ (0 <= left s /\ left s <= 100)
           /\ (0 <= top s /\ top s <= 100)
           /\ (0 <= styleWidth s /\ styleWidth s <= 100)
           /\ (0 <= styleHeight s /\ styleHeight s <= 100)
       end) layers (overlays layers).
Proof.
  intros H. split; [apply length_map|].
  induction H as [|l ls (H1 & H2 & H3 & H4 & H5 & H6) _ IH]; cbn [overlays map];
    constructor; [|exact IH].
  unfold getStyle. destruct (visible l); cbn [negb]; [|reflexivity].
  cbn [left top styleWidth styleHeight].
  assert (R : Double.round 100 == 100) by reflexivity.
  destruct (@sub_unit_box (xmin (box l)) (xmax (box l)))
    as [DX0 DX1]; [lra|lra|lra|].
  destruct (@sub_unit_box (ymin (box l)) (ymax (box l)))
    as [DY0 DY1]; [lra|lra|lra|].
  split; [reflexivity|].
  split; [apply mul_unit; [lra|lra|discriminate|exact R]|].
  split; [apply mul_unit; [lra|lra|discriminate|exact R]|].
  split; apply mul_unit; try lra; try discriminate; exact R.
Qed.
End CanvasViews.

Lemma backLayer_unitBox : unitBox (box MoreSamples.backLayer).
Proof. unfold unitBox. vm_compute. repeat split; discriminate. Qed.

Lemma cropCanvas_inside_image_witness :
  let c := ImageProcessing.cropCanvas Samples.image
             (box MoreSamples.backLayer) in
  unitBox (box MoreSamples.backLayer)
  /\ ImageProcessing.sx (ImageProcessing.drawn c)
     <= ImageProcessing.pixels (ImageProcessing.naturalWidth Samples.image)
  /\ ImageProcessing.sWidth (ImageProcessing.drawn c)
     <= ImageProcessing.pixels (ImageProcessing.naturalWidth Samples.image).
Proof.
  cbv zeta.
  assert (NW : (ImageProcessing.naturalWidth Samples.image <= 2 ^ 53)%N)
    by (vm_compute; discriminate).
  assert (NH : (ImageProcessing.naturalHeight Samples.image <= 2 ^ 53)%N)
    by (vm_compute; discriminate).
  pose proof (@cropCanvas_inside_image Samples.image _ backLayer_unitBox
                NW NH) as ((_ & A) & _ & (_ & B) & _).
  exact (conj backLayer_unitBox (conj A B)).
Defined.

Lemma cropCanvas_inverted_box_witness :
  ImageProcessing.width
    (ImageProcessing.cropCanvas Samples.image
       {| ymin := 0.125; xmin := 0.75; ymax := 0.875; xmax := 0.25 |}) < 0.
Proof.
  assert (R1 : Double.representable 0.75) by (vm_compute; reflexivity).
  assert (R2 : Double.representable 0.25) by (vm_compute; reflexivity).
  apply (@cropCanvas_inverted_box Samples.image
           {| ymin := 0.125; xmin := 0.75; ymax := 0.875; xmax := 0.25 |});
    [reflexivity|exact R1|exact R2|reflexivity].
Defined.

Lemma drawSelected_matches_cropLayer_witness :
  exists c,
    LayerCanvas.drawSelected (Some ImageProcessing.Context2D)
      (Some GeminiService.defaultBackground) (Some Samples.image)
      (LayerCanvas.handleImageLoad Samples.image) = Some c
    /\ LayerCanvas.sameCanvas c
         (ImageProcessing.cropCanvas Samples.image
            (box GeminiService.defaultBackground)).
Proof.
  apply (@drawSelected_matches_cropLayer ImageProcessing.Context2D
           GeminiService.defaultBackground Samples.image).
  reflexivity.
Defined.

Lemma result_boxes_unit :
  Forall (fun l => unitBox (box l)) (layers MoreSamples.result).
Proof. unfold unitBox. vm_compute. repeat constructor; discriminate. Qed.

Lemma overlays_in_frame_witness :
  Forall (fun l => unitBox (box l)) (layers MoreSamples.result)
  /\ List.length (LayerCanvas.overlays (layers MoreSamples.result)) = 3%nat.
Proof.
  split; [exact result_boxes_unit|].
  exact (proj1 (@overlays_in_frame (layers MoreSamples.result)
                  result_boxes_unit)).
Defined.

(* ================================================================== *)
(** * Further properties of the downloads *)

Section FileNames.
Import Strings.

Lemma replace_runs_no_whitespace r s :
  has_whitespace (replace_runs r s) = false.
Proof.
  revert r. induction s as [|c s IH]; intros r; cbn; [reflexivity|].
  destruct (is_whitespace c) eqn:E.
  - destruct r; cbn; [apply IH|]. now rewrite IH.
  - cbn. now rewrite E, IH.
Qed.

Lemma replace_runs_fixed s :
  has_whitespace s = false -> replace_runs false s = s.
Proof.
  induction s as [|c s IH]; cbn; [reflexivity|].
  destruct (is_whitespace c); [discriminate|].
  cbn. intros H. now rewrite IH.
Qed.

Lemma has_whitespace_app a b :
  has_whitespace (a ++ b) = has_whitespace a || has_whitespace b.
Proof.
  induction a as [|c a IH]; cbn; [reflexivity|]. now rewrite IH, orb_assoc.
Qed.

Lemma replace_runs_length r s :
  (String.length (replace_runs r s) <= String.length s)%nat.
Proof.
  revert r. induction s as [|c s IH]; intros r; cbn; [lia|].
  destruct (is_whitespace c).
  - destruct r; cbn; specialize (IH true); lia.
  - cbn. specialize (IH false). lia.
Qed.

(** X18.  Replacing the whitespace runs of a label leaves no whitespace,
    never lengthens the label, changes nothing when done again, and
    leaves a label without whitespace as it is. *)
Theorem replace_whitespace_clean s :
  has_whitespace (replace_whitespace s) = false
  /\ replace_whitespace (replace_whitespace s) = replace_whitespace s
  /\ (String.length (replace_whitespace s) <= String.length s)%nat
  /\ (has_whitespace s = false -> replace_whitespace s = s).
Proof.
  unfold replace_whitespace. repeat split.
  - apply replace_runs_no_whitespace.
  - apply replace_runs_fixed, replace_runs_no_whitespace.
  - apply replace_runs_length.
  - apply replace_runs_fixed.
Qed.

(** X19.  The file names of the two download paths contain no
    whitespace, whatever the label, and differ from each other for
    every layer. *)
Theorem download_names_no_whitespace l :
  has_whitespace (LayerList.fileName l) = false
  /\ has_whitespace (LayerCanvas.cropFileName l) = false
  /\ LayerList.fileName l <> LayerCanvas.cropFileName l.
Proof.
  unfold LayerList.fileName, LayerCanvas.cropFileName.
  rewrite !has_whitespace_app.
  unfold replace_whitespace. rewrite replace_runs_no_whitespace.
  repeat split.
  generalize (replace_runs false (label l)). intros x H.
  induction x as [|c x IH]; cbn in H; [discriminate|].
  injection H as H. now apply IH.
Qed.
End FileNames.

Lemma replace_whitespace_clean_witness :
  Strings.replace_whitespace "Man  in red shirt" = "Man_in_red_shirt"%string
  /\ Strings.replace_whitespace "Logo" = "Logo"%string.
Proof.
  split; [reflexivity|].
  apply (replace_whitespace_clean "Logo"). reflexivity.
Defined.

Section DownloadFile.
Import Downloads.

Lemma detach_absent n l :
  Forall (fun m => m <> n) l -> detach n l = l.
Proof.
  unfold detach. induction 1 as [|m l Hm _ IH]; cbn; [reflexivity|].
  destruct (Nat.eqb m n) eqn:E; [now apply Nat.eqb_eq in E|].
  cbn. now rewrite IH.
Qed.

Lemma detach_last n l :
  Forall (fun m => m <> n) l -> detach n (l ++ [n]) = l.
Proof.
  intros H. unfold detach. rewrite filter_app. cbn.
  rewrite Nat.eqb_refl. cbn. rewrite List.app_nil_r.
  now apply (@detach_absent n l).
Qed.

Lemma downloadFile_result dataUrl filename p :
  well_formed p ->
  downloadFile dataUrl filename p
  = JS.Return {| body := body p;
                 fresh := S (fresh p);
                 saves := saves p ++ [(dataUrl, filename)] |}.
Proof.
  intros Hwf. unfold well_formed in *.
  assert (Hne : Forall (fun m => m <> fresh p) (body p)).
  { revert Hwf. apply Forall_impl. intros; lia. }
  unfold downloadFile, removeChild, click, appendChild, createElement_a.
  cbn [fst snd node href download body fresh saves].
  rewrite (detach_absent Hne).
  rewrite existsb_app. cbn [existsb].
  rewrite Nat.eqb_refl, orb_true_r.
  now rewrite (detach_last Hne).
Qed.

(** X20.  On a page whose body holds only elements created earlier,
    [downloadFile] completes, starts exactly one save, with the given
    address and file name, and leaves the children of the body as they
    were; the page it leaves is again such a page. *)
Theorem downloadFile_leaves_page dataUrl filename p :
  well_formed p ->
  exists p',
    downloadFile dataUrl filename p = JS.Return p'
    /\ body p' = body p
    /\ saves p' = saves p ++ [(dataUrl, filename)]
    /\ well_formed p'.
Proof.
  intros Hwf. eexists. split; [now apply downloadFile_result|].
  cbn. repeat split.
  unfold well_formed in *. cbn.
  revert Hwf. apply Forall_impl. intros; lia.
Qed.
End DownloadFile.

Lemma page_well_formed : Downloads.well_formed MoreSamples.page.
Proof. repeat constructor. Qed.

Lemma downloadFile_leaves_page_witness :
  exists p',
    Downloads.downloadFile "data:image/png;base64,AAAA" "Hero.png"
      MoreSamples.page = JS.Return p'
    /\ Downloads.body p' = [0; 1; 2]%nat.
Proof.
  destruct (@downloadFile_leaves_page "data:image/png;base64,AAAA"
              "Hero.png" MoreSamples.page page_well_formed)
    as (p' & H & Hb & _).
  exists p'. now split.
Defined.

(* ================================================================== *)
(** * Further properties of the layer list *)

Section ThumbnailCache.
Import ImageProcessing LayerList.

Lemma get_set_same k v o : get k (set k v o) = Some v.
Proof.
  induction o as [|[k' v'] o IH]; cbn; [now rewrite String.eqb_refl|].
  destruct (String.eqb k k') eqn:E; cbn; rewrite E; [reflexivity|exact IH].
Qed.

Lemma get_set_other k k' v o : k <> k' -> get k (set k' v o) = get k o.
Proof.
  intros Hne. induction o as [|[k0 v0] o IH]; cbn.
  - destruct (String.eqb k k') eqn:E; [|reflexivity].
    now apply String.eqb_eq in E.
  - destruct (String.eqb k' k0) eqn:E0; cbn.
    + apply String.eqb_eq in E0. subst k0.
      destruct (String.eqb k k') eqn:E; [|reflexivity].
      now apply String.eqb_eq in E.
    + now rewrite IH.
Qed.

Lemma get_spread_absent k prev newThumbs :
  get k newThumbs = None -> get k (spread prev newThumbs) = get k prev.
Proof.
  unfold spread. revert prev.
  induction newThumbs as [|[k' v'] rest IH]; intros prev; cbn;
    [reflexivity|].
  destruct (String.eqb k k') eqn:E; [discriminate|].
  intros H. rewrite IH by exact H.
  apply get_set_other. now apply String.eqb_neq.
Qed.

Lemma get_absent_key k (o : Thumbnails) :
  ~ In k (map fst o) -> get k o = None.
Proof.
  induction o as [|[k0 v0] o IH]; cbn; [reflexivity|].
  intros Hout. destruct (String.eqb k k0) eqn:E.
  - apply String.eqb_eq in E. subst k0. exfalso. apply Hout. now left.
  - apply IH. intros H. apply Hout. now right.
Qed.

Lemma get_spread_present k v prev newThumbs :
  NoDup (map fst newThumbs) ->
  get k newThumbs = Some v -> get k (spread prev newThumbs) = Some v.
Proof.
  unfold spread. revert prev.
  induction newThumbs as [|[k' v'] rest IH]; intros prev Hnd; cbn;
    [discriminate|].
  apply NoDup_cons_iff in Hnd as [Hout Hnd].
  destruct (String.eqb k k') eqn:E.
  - intros [= <-]. apply String.eqb_eq in E. subst k'.
    pose proof (@get_spread_absent k (set k v' prev) rest
                  (get_absent_key _ _ Hout)) as Ha.
    unfold spread in Ha. rewrite Ha. apply get_set_same.
  - intros H. now apply IH.
Qed.

Lemma set_keys k v o :
  map fst (set k v o)
  = if existsb (String.eqb k) (map fst o)
    then map fst o else map fst o ++ [k].
Proof.
  induction o as [|[k' v'] o IH]; cbn; [reflexivity|].
  destruct (String.eqb k k') eqn:E; cbn; [reflexivity|].
  rewrite IH. now destruct (existsb (String.eqb k) (map fst o)).
Qed.

Lemma set_keys_unique k v o :
  NoDup (map fst o) -> NoDup (map fst (set k v o)).
Proof.
  intros H. rewrite set_keys.
  destruct (existsb (String.eqb k) (map fst o)) eqn:E; [exact H|].
  apply NoDup_app; [exact H|repeat constructor; intros []|].
  intros a Ha [Hk|[]]. subst a.
  assert (Ht : existsb (String.eqb k) (map fst o) = true).
  { apply existsb_exists. exists k.
    split; [exact Ha|apply String.eqb_refl]. }
  congruence.
Qed.

Lemma collect_keys_unique document img thumbnails layers acc newThumbs :
  collect document img thumbnails layers acc = JS.Return newThumbs ->
  NoDup (map fst acc) -> NoDup (map fst newThumbs).
Proof.
  revert acc. induction layers as [|layer rest IH]; intros acc; cbn.
  - now intros [= <-].
  - destruct (truthy (get (id layer) thumbnails)); [apply IH|].
    destruct (cropLayer document img (box layer)); [|discriminate].
    intros H Hnd. apply (IH _ H). now apply set_keys_unique.
Qed.

(** What the [forEach] leaves in [newThumbs]: what was there, and a crop
    for each visited layer that had no truthy entry. *)
Lemma collect_spec document img thumbnails layers acc newThumbs :
  collect document img thumbnails layers acc = JS.Return newThumbs ->
  (forall k, get k acc <> None -> get k newThumbs <> None)
  /\ (forall l, In l layers -> truthy (get (id l) thumbnails) = false ->
                get (id l) newThumbs <> None)
  /\ (forall k v, get k newThumbs = Some v ->
        get k acc = Some v
        \/ exists l, In l layers /\ id l = k
                     /\ truthy (get k thumbnails) = false
                     /\ cropLayer document img (box l) = JS.Return v).
Proof.
  revert acc. induction layers as [|layer rest IH]; intros acc; cbn.
  - intros [= <-]. repeat split; auto; easy.
  - destruct (truthy (get (id layer) thumbnails)) eqn:Et.
    + intros H. destruct (IH _ H) as (H1 & H2 & H3). repeat split.
      * exact H1.
      * intros l [<-|Hin] Hl; [congruence|now apply H2].
      * intros k v Hk. destruct (H3 k v Hk) as [Ha|(l & Hin & Hl)];
          [now left|right; exists l; split; [now right|exact Hl]].
    + destruct (cropLayer document img (box layer)) as [d|] eqn:Ec;
        [|discriminate].
      intros H. destruct (IH _ H) as (H1 & H2 & H3). repeat split.
      * intros k Hk. apply H1.
        destruct (String.eqb k (id layer)) eqn:E.
        -- apply String.eqb_eq in E. subst k. now rewrite get_set_same.
        -- apply String.eqb_neq in E. now rewrite get_set_other.
      * intros l [<-|Hin] Hl; [|now apply H2].
        apply H1. now rewrite get_set_same.
      * intros k v Hk. destruct (H3 k v Hk) as [Ha|(l & Hin & Hl)].
        -- destruct (String.eqb k (id layer)) eqn:E.
           ++ apply String.eqb_eq in E. subst k.
              rewrite get_set_same in Ha. injection Ha as <-.
              right. exists layer. repeat split; auto.
           ++ apply String.eqb_neq in E.
              rewrite get_set_other in Ha by exact E. now left.
        -- right. exists l. split; [now right|exact Hl].
Qed.

Lemma thumbnailsEffect_spread document img layers thumbnails thumbnails' :
  thumbnailsEffect document (Some img) layers thumbnails
  = JS.Return thumbnails' ->
  exists newThumbs,
    collect document img thumbnails layers [] = JS.Return newThumbs
    /\ thumbnails' = spread thumbnails newThumbs.
Proof.
  unfold thumbnailsEffect. destruct layers as [|layer rest].
  - intros [= <-]. exists []. now split.
  - destruct (collect document img thumbnails (layer :: rest) [])
      as [[|kv new]|]; [| |discriminate]; intros [= <-]; eexists;
      now split.
Qed.

Lemma thumbnailsEffect_unchanged document img layers thumbnails
      thumbnails' k :
  thumbnailsEffect document (Some img) layers thumbnails
  = JS.Return thumbnails' ->
  truthy (get k thumbnails) = true \/ ~ In k (map id layers) ->
  get k thumbnails' = get k thumbnails.
Proof.
  intros H Hk. apply thumbnailsEffect_spread in H as (new & Hc & ->).
  apply get_spread_absent.
  destruct (get k new) as [v|] eqn:E; [|reflexivity]. exfalso.
  destruct (collect_spec _ _ _ _ _ Hc) as (_ & _ & H3).
  destruct (H3 k v E) as [Ha|(l & Hin & Hid & Ht & _)]; [discriminate|].
  destruct Hk as [Hk|Hk]; [congruence|].
  apply Hk. rewrite <- Hid. now apply in_map.
Qed.

Lemma thumbnailsEffect_entry document img layers thumbnails thumbnails' l :
  thumbnailsEffect document (Some img) layers thumbnails
  = JS.Return thumbnails' ->
  In l layers ->
  exists v, get (id l) thumbnails' = Some v
    /\ (truthy (get (id l) thumbnails) = true
        /\ get (id l) thumbnails = Some v
        \/ truthy (get (id l) thumbnails) = false
           /\ exists l', In l' layers /\ id l' = id l
                /\ cropLayer document img (box l') = JS.Return v).
Proof.
  intros H Hin.
  pose proof H as H'.
  apply thumbnailsEffect_spread in H' as (new & Hc & ->).
  destruct (truthy (get (id l) thumbnails)) eqn:Et.
  - pose proof (@thumbnailsEffect_unchanged _ _ _ _ _ (id l) H
                  (or_introl Et)) as Hk.
    destruct (get (id l) thumbnails) as [v|] eqn:Eg; [|discriminate].
    exists v. split; [exact Hk|left; now split].
  - destruct (collect_spec _ _ _ _ _ Hc) as (_ & H2 & H3).
    specialize (H2 l Hin Et).
    destruct (get (id l) new) as [v|] eqn:Eg; [|contradiction].
    exists v. split.
    + apply get_spread_present; [|exact Eg].
      apply (collect_keys_unique _ _ _ _ _ Hc). constructor.
    + destruct (H3 _ _ Eg) as [Ha|(l' & Hin' & Hid & _ & Hcrop)];
        [discriminate|].
      right. split; [reflexivity|]. now exists l'.
Qed.

Lemma collect_all_cached document img thumbnails layers acc :
  Forall (fun l => truthy (get (id l) thumbnails) = true) layers ->
  collect document img thumbnails layers acc = JS.Return acc.
Proof.
  induction 1 as [|l ls Hl _ IH]; cbn; [reflexivity|]. now rewrite Hl.
Qed.

Lemma collect_returns document img thumbnails layers acc :
  Forall (fun l => truthy (get (id l) thumbnails) = false ->
                   exists v, cropLayer document img (box l) = JS.Return v)
         layers ->
  exists newThumbs,
    collect document img thumbnails layers acc = JS.Return newThumbs.
Proof.
  intros H. revert acc.
  induction H as [|l ls Hl _ IH]; intros acc; cbn; [now eexists|].
  destruct (truthy (get (id l) thumbnails)); [apply IH|].
  destruct (Hl eq_refl) as (v & ->). apply IH.
Qed.

Lemma thumbnailsEffect_returns document img layers thumbnails :
  (forall l, In l layers -> truthy (get (id l) thumbnails) = false ->
     exists v, cropLayer document img (box l) = JS.Return v) ->
  exists thumbnails',
    thumbnailsEffect document (Some img) layers thumbnails
    = JS.Return thumbnails'.
Proof.
  intros H. unfold thumbnailsEffect.
  destruct layers as [|layer rest]; [now eexists|].
  destruct (@collect_returns document img thumbnails (layer :: rest) [])
    as (new & ->).
  - apply Forall_forall. intros l Hin. now apply H.
  - destruct new; now eexists.
Qed.

Lemma cropLayer_null_context document img b :
  getContext2d document = None ->
  cropLayer document img b = JS.Return EmptyString.
Proof. unfold cropLayer. now intros ->. Qed.

(** X21.  The thumbnail effect never rewrites an entry that is
    non-empty, nor one of an identifier that is not listed: such entries
    are the same afterwards, whichever image is now shown. *)
Theorem thumbnailsEffect_keeps_entries document originalImage layers
        thumbnails thumbnails' :
  thumbnailsEffect document originalImage layers thumbnails
  = JS.Return thumbnails' ->
  forall k,
    truthy (get k thumbnails) = true \/ ~ In k (map id layers) ->
    get k thumbnails' = get k thumbnails.
Proof.
  destruct originalImage as [img|]; [|now intros [= <-]].
  intros H k Hk. now apply thumbnailsEffect_unchanged with (k := k) in H.
Qed.


(** X23.  Once the effect has run and no crop came out empty, it has
    nothing left to do for these identifiers: run again for layers that
    carry no other identifier (the same layers, or the layers after a
    visibility toggle), with any image and document, it crops nothing
    and leaves the thumbnails as they are. *)
Theorem thumbnailsEffect_settled document img layers thumbnails
        thumbnails' :
  thumbnailsEffect document (Some img) layers thumbnails
  = JS.Return thumbnails' ->
  (forall l v, In l layers ->
     cropLayer document img (box l) = JS.Return v -> v <> EmptyString) ->
  forall document' originalImage' layers',
    incl (map id layers') (map id layers) ->
    thumbnailsEffect document' originalImage' layers' thumbnails'
    = JS.Return thumbnails'.
Proof.
  intros H Hne document' originalImage' layers' Hids.
  unfold thumbnailsEffect at 1.
  destruct originalImage' as [img'|]; [|reflexivity].
  destruct layers' as [|layer rest] eqn:El; [reflexivity|].
  rewrite <- El in *. clear El layer rest.
  rewrite collect_all_cached; [reflexivity|].
  apply Forall_forall. intros l0 Hin0.
  assert (Hl : exists l, In l layers /\ id l = id l0).
  { assert (Hi : In (id l0) (map id layers))
      by (apply Hids; now apply in_map).
    apply in_map_iff in Hi as (l & Hid & Hin). now exists l. }
  destruct Hl as (l & Hin & <-).
  destruct (thumbnailsEffect_entry _ _ _ _ l H Hin)
    as (v & Hv & [[Ht Hold]|[_ (l' & Hin' & _ & Hcrop)]]).
  - rewrite Hv, <- Hold. exact Ht.
  - rewrite Hv. specialize (Hne _ _ Hin' Hcrop). now destruct v.
Qed.



(** X26.  "Download PNG" of the isolated view does not look at what the
    crop returned: without a 2D context it still starts a save, with the
    empty string as its address, under the underscored label with the
    suffix _crop.png. *)
Theorem handleDownloadCrop_without_context document l img p :
  getContext2d document = None ->
  Downloads.well_formed p ->
  LayerCanvas.handleDownloadCrop document (Some l) (Some img) p
  = JS.Return
      {| Downloads.body := Downloads.body p;
         Downloads.fresh := S (Downloads.fresh p);
         Downloads.saves :=
           Downloads.saves p
           ++ [(EmptyString, LayerCanvas.cropFileName l)] |}.
Proof.
  intros Hctx Hwf. unfold LayerCanvas.handleDownloadCrop.
  rewrite (@cropLayer_null_context document img (box l) Hctx).
  now apply downloadFile_result.
Qed.

Lemma StronglySorted_rev (A : Type) (R : A -> A -> Prop) l :
  StronglySorted R l -> StronglySorted (fun a b => R b a) (List.rev l).
Proof.
  induction 1 as [|a l Hs IH Ha]; cbn; [constructor|].
  assert (Happ : forall l1 l2,
             StronglySorted (fun a b => R b a) l1 ->
             StronglySorted (fun a b => R b a) l2 ->
             (forall u v, In u l1 -> In v l2 -> R v u) ->
             StronglySorted (fun a b => R b a) (l1 ++ l2)).
  { intros l1 l2 H1. induction H1 as [|u l1 H1 IH1 Hu]; intros H2 H12;
      cbn; [exact H2|].
    constructor.
    - apply IH1; [exact H2|]. intros; apply H12; [now right|assumption].
    - apply Forall_app. split; [exact Hu|].
      apply Forall_forall. intros v Hv. apply H12; [now left|exact Hv]. }
  apply Happ; [exact IH|repeat constructor|].
  intros u v Hu [<-|[]]. apply in_rev in Hu.
  rewrite Forall_forall in Ha. now apply Ha.
Qed.

(** X27.  The rows of the layer list show a resolved result from the
    highest stacking order down to the lowest. *)
Theorem rows_front_to_back now API_KEY remote r :
  GeminiService.analyzeThumbnail now API_KEY remote = JS.Return r ->
  StronglySorted (fun a b => (zIndex b <= zIndex a)%Z) (rows (layers r))
  /\ Permutation (layers r) (rows (layers r)).
Proof.
  intros H. apply analyzeThumbnail_returns in H as (raw & _ & ->).
  split; [|apply Permutation_rev].
  unfold rows.
  apply (StronglySorted_rev
           (R := fun a b : LayerData => (zIndex a <= zIndex b)%Z)).
  apply (Array_sort_sorted zIndex GeminiService.byZIndex byZIndex_key).
Qed.

Lemma cached_refreshed :
  thumbnailsEffect MoreSamples.canvasDocument (Some Samples.image)
    (layers MoreSamples.result) MoreSamples.cached
  = JS.Return MoreSamples.refreshed.
Proof. vm_compute. reflexivity. Defined.

Lemma empty_refreshed :
  thumbnailsEffect MoreSamples.canvasDocument (Some Samples.image)
    (layers MoreSamples.result) []
  = JS.Return MoreSamples.thumbnails.
Proof. vm_compute. reflexivity. Defined.

Lemma backLayer_listed : In MoreSamples.backLayer (layers MoreSamples.result).
Proof. vm_compute. left. reflexivity. Defined.

Lemma result_ids_distinct : NoDup (map id (layers MoreSamples.result)).
Proof.
  vm_compute.
  repeat (apply NoDup_cons; [cbn; intuition discriminate|]).
  apply NoDup_nil.
Defined.

Lemma canvasDocument_crops l v :
  In l (layers MoreSamples.result) ->
  cropLayer MoreSamples.canvasDocument Samples.image (box l) = JS.Return v ->
  v <> EmptyString.
Proof. intros _. unfold cropLayer. cbn. intros [= <-]. discriminate. Defined.

Lemma thumbnailsEffect_keeps_entries_witness :
  get "layer-1-1700000000001" MoreSamples.refreshed
  = get "layer-1-1700000000001" MoreSamples.cached
  /\ get "layer-9-1700000000009" MoreSamples.refreshed = None.
Proof.
  split.
  - exact (@thumbnailsEffect_keeps_entries _ _ _ _ _ cached_refreshed
             "layer-1-1700000000001" (or_introl eq_refl)).
  - rewrite (@thumbnailsEffect_keeps_entries _ _ _ _ _ cached_refreshed
               "layer-9-1700000000009").
    + reflexivity.
    + right. vm_compute. intuition discriminate.
Defined.


Lemma thumbnailsEffect_settled_witness :
  thumbnailsEffect Samples.noContext (Some Samples.image)
    (map (App.toggleLayer "layer-2-1700000000002")
         (layers MoreSamples.result))
    MoreSamples.thumbnails
  = JS.Return MoreSamples.thumbnails.
Proof.
  apply (@thumbnailsEffect_settled _ _ _ _ _ empty_refreshed
           canvasDocument_crops).
  assert (E : map id (map (App.toggleLayer "layer-2-1700000000002")
                          (layers MoreSamples.result))
              = map id (layers MoreSamples.result))
    by (vm_compute; reflexivity).
  rewrite E. apply incl_refl.
Defined.



Lemma handleDownloadCrop_without_context_witness :
  LayerCanvas.handleDownloadCrop Samples.noContext
    (Some MoreSamples.backLayer) (Some Samples.image) MoreSamples.page
  = JS.Return
      {| Downloads.body := [0; 1; 2]%nat;
         Downloads.fresh := 4%nat;
         Downloads.saves := [(EmptyString, "Hero_crop.png")]%string |}.
Proof.
  exact (@handleDownloadCrop_without_context Samples.noContext
           MoreSamples.backLayer Samples.image MoreSamples.page
           eq_refl page_well_formed).
Defined.

Lemma rows_front_to_back_witness :
  StronglySorted (fun a b => (zIndex b <= zIndex a)%Z)
    (rows (layers MoreSamples.result))
  /\ map zIndex (rows (layers MoreSamples.result)) = [3; 2; 1]%Z.
Proof.
  split; [|reflexivity].
  exact (proj1 (@rows_front_to_back Samples.clock Samples.API_KEY
                  (GeminiService.Parsed Samples.threeLayers)
                  MoreSamples.result eq_refl)).
Defined.
End ThumbnailCache.

(* ================================================================== *)
(** * The score map of the analysis panel *)

Section ScoreMap.
Import GeminiService AnalysisPanel.

Lemma contrastScore_inChart s : 0 <= contrastScore s /\ contrastScore s <= 100.
Proof.
  unfold contrastScore.
  destruct (String.eqb s "High"); [split; discriminate|].
  destruct (String.eqb s "Medium"); split; discriminate.
Qed.

(** X28.  For a resolved analysis whose two scores are on the 0-100
    scale the schema asks for, every point of the radar chart lies on its
    axis, between 0 and the full mark, whatever the response gave as
    contrast and eye contact. *)
Theorem radarData_in_chart now API_KEY rawData r :
  analyzeThumbnail now API_KEY (Parsed rawData) = JS.Return r ->
  0 <= raw_ruleOfThirdsScore (raw_analysis rawData) ->
  raw_ruleOfThirdsScore (raw_analysis rawData) <= 100 ->
  0 <= raw_visualBalanceScore (raw_analysis rawData) ->
  raw_visualBalanceScore (raw_analysis rawData) <= 100 ->
  Forall inChart (radarData (analysis r)).
Proof.
  intros H H1 H2 H3 H4.
  apply analyzeThumbnail_returns in H as (raw & [= <-] & ->).
  unfold radarData, inChart. cbn.
  repeat constructor; cbn; try assumption; try discriminate.
  - apply contrastScore_inChart.
  - apply contrastScore_inChart.
  - destruct (raw_eyeContact (raw_analysis rawData)); discriminate.
  - destruct (raw_eyeContact (raw_analysis rawData)); discriminate.
Qed.

(** X29.  The contrast point of the chart, from the response: 90 for
    the level High, 60 for Medium and for a missing or empty level, 30
    for every other text. *)
Theorem radarData_contrast now API_KEY rawData r :
  analyzeThumbnail now API_KEY (Parsed rawData) = JS.Return r ->
  exists p,
    nth_error (radarData (analysis r)) 2 = Some p
    /\ subject p = "Contrast"%string
    /\ (raw_contrastLevel (raw_analysis rawData) = Some "High"%string ->
        A p = 90)
    /\ (raw_contrastLevel (raw_analysis rawData) = None
        \/ raw_contrastLevel (raw_analysis rawData) = Some EmptyString
        \/ raw_contrastLevel (raw_analysis rawData) = Some "Medium"%string ->
        A p = 60)
    /\ (forall s, raw_contrastLevel (raw_analysis rawData) = Some s ->
          s <> EmptyString -> s <> "High"%string -> s <> "Medium"%string ->
          A p = 30).
Proof.
  intros H.
  apply analyzeThumbnail_returns in H as (raw & [= <-] & ->).
  eexists. split; [reflexivity|]. split; [reflexivity|]. cbn.
  split; [now intros ->|]. split; [now intros [->|[->| ->]]|].
  intros s -> Hne Hh Hm. unfold contrastScore.
  destruct s as [|c s]; [contradiction|]. cbn [JS.string_or].
  apply String.eqb_neq in Hh, Hm. now rewrite Hh, Hm.
Qed.

Lemma radarData_in_chart_witness :
  Forall inChart (radarData (analysis MoreSamples.result)).
Proof.
  apply (@radarData_in_chart Samples.clock Samples.API_KEY
           Samples.threeLayers MoreSamples.result eq_refl);
    discriminate.
Defined.

Lemma radarData_contrast_witness :
  exists p,
    nth_error (radarData (analysis MoreSamples.result)) 2 = Some p
    /\ A p = 60.
Proof.
  destruct (@radarData_contrast Samples.clock Samples.API_KEY
              Samples.threeLayers MoreSamples.result eq_refl)
    as (p & Hp & _ & _ & Hm & _).
  exists p. split; [exact Hp|]. apply Hm. now left.
Defined.
End ScoreMap.
